(** * portapps: command execution and registry export/import

    A shallow embedding of [main.go] (package [portableapps]): the path
    helper [PathJoin], the command runner [ExecCmd] and the registry
    helpers [ExportRegKey] and [ImportRegKey].

    Go strings are byte sequences and are modelled by [string] (a list of
    8-bit [ascii]).  The operating system (clock, file system, process
    creation) is an interface, [OS]; the functions of [main.go] that talk to
    it are written in a small state monad that threads the world and records
    every call made to the logger, to [os.Stat] and to [exec.Cmd.Start].

    The logger [Log] is the one that [Init] sets up; its calls are recorded
    with the format string and operands they are given, and [Fatalf] ends
    the program.  A command either fails to start or runs to its end: a
    process that never exits blocks [Wait] for ever and gives no run. *)

From Stdlib Require Import String Ascii List ZArith NArith Bool Lia DecimalString.
From ExtLib Require Import Structures.Monad.
Import ListNotations.
Import MonadNotation.
Local Open Scope string_scope.
Local Open Scope monad_scope.
Local Open Scope N_scope.

(* ===================================================================== *)
(** ** Strings: the parts of Go's [strings] and [fmt] that [main.go] uses *)
(* ===================================================================== *)

Module GoStrings.

(** [strings.Join]: nothing for no element, the element itself for one,
    otherwise the first element followed by separator and element for each
    of the others (the builder loop of the library). *)
Definition Join (elems : list string) (sep : string) : string :=
  match elems with
  | [] => ""
  | e :: rest => fold_left (fun b s => b ++ sep ++ s) rest e
  end.

(** Decimal digits of an unsigned number, as [%d] prints them. *)
Definition decimal (u : N) : string := NilEmpty.string_of_uint (N.to_uint u).

(** [fmt.Sprintf("%d", n)] for an unsigned operand. *)
Definition Sprintf_d (n : N) : string := decimal n.

(** [fmt.Sprintf("/reg:%s", a)]. *)
Definition Sprintf_reg (a : string) : string := "/reg:" ++ a.

(** [fmt.Sprintf("%s.%s", a, b)]. *)
Definition Sprintf_s_dot_s (a b : string) : string := a ++ "." ++ b.

(** [fmt.Sprintf("%s\n", a)]. *)
Definition newline : string := String (ascii_of_nat 10) "".
Definition Sprintf_s_nl (a : string) : string := a ++ newline.

End GoStrings.
Import GoStrings.

(* ===================================================================== *)
(** ** Time: [time.Now().Format("20060102150405")] *)
(* ===================================================================== *)

Module GoTime.

(** The civil reading of a [time.Time], as [Date] and [Clock] return it,
    with the nanosecond within the second. *)
Record Time : Type := mkTime {
  year : Z; month : Z; day : Z; hour : Z; minute : Z; second : Z;
  nanosecond : Z
}.

Fixpoint zeros (n : nat) : string :=
  match n with
  | O => ""
  | S k => String "0" (zeros k)
  end.

(** [appendInt(b, x, width)] of package [time], without the buffer: a minus
    sign for a negative [x], then the decimal digits of [|x|] padded with
    zeros on the left up to [width] digits. *)
Definition appendInt (x : Z) (width : nat) : string :=
  let u := Z.abs_N x in
  (if (x <? 0)%Z then "-" else "") ++
  zeros (width - String.length (decimal u)) ++ decimal u.

(** [t.Format("20060102150405")]: the layout splits into the chunks
    [2006] (stdLongYear), [01] (stdZeroMonth), [02] (stdZeroDay),
    [15] (stdHour), [04] (stdZeroMinute) and [05] (stdZeroSecond), with no
    literal text between them. *)
Definition Format_20060102150405 (t : Time) : string :=
  appendInt (year t) 4 ++ appendInt (month t) 2 ++ appendInt (day t) 2 ++
  appendInt (hour t) 2 ++ appendInt (minute t) 2 ++ appendInt (second t) 2.

(** The readings a wall clock gives: a calendar date of the years 0 to 9999
    and a time of day. *)
Definition civil (t : Time) : Prop :=
  (0 <= year t <= 9999 /\ 1 <= month t <= 12 /\ 1 <= day t <= 31 /\
   0 <= hour t <= 23 /\ 0 <= minute t <= 59 /\ 0 <= second t <= 59 /\
   0 <= nanosecond t <= 999999999)%Z.

(** Two readings within the same second. *)
Definition same_second (a b : Time) : Prop :=
  year a = year b /\ month a = month b /\ day a = day b /\
  hour a = hour b /\ minute a = minute b /\ second a = second b.

End GoTime.
Import GoTime.

(* ===================================================================== *)
(** ** Data model of [main.go] *)
(* ===================================================================== *)

(** [CmdOptions]: options of command. *)
Record CmdOptions : Type := mkCmdOptions {
  Command : string;
  Args : list string;
  WorkingDir : string;
  HideWindow : bool
}.

(** [CmdResult]: result of command.  [ExitCode] is a [uint32]. *)
Record CmdResult : Type := mkCmdResult {
  Options : CmdOptions;
  ExitCode : N;
  Stdout : string;
  Stderr : string
}.

(** [RegExportImport]. *)
Record RegExportImport : Type := mkReg {
  Key : string;
  Arch : string;
  File : string
}.

(** A Go [error] value, by its message. *)
Definition error : Type := string.

(** The fields of [exec.Cmd] that [ExecCmd] sets before [Start]:
    [exec.Command(name, arg...)] gives [Path] and [Args] (the name followed
    by the arguments), then [Dir] and [SysProcAttr.HideWindow]. *)
Record Cmd : Type := mkCmd {
  cmd_Path : string;
  cmd_Args : list string;
  cmd_Dir : string;
  cmd_HideWindow : bool
}.

(** What becomes of a command: [Start] returns an error, or the process
    starts, writes to its two streams and terminates with an exit code,
    which [Wait] and [ProcessState.Sys()] then report. *)
Inductive ProcOutcome : Type :=
| StartError (e : error)
| Exited (code : N) (out err : string).

(** The operating system as [main.go] sees it. *)
Class OS (World : Type) : Type := {
  (** [time.Now()] *)
  os_now : World -> Time;
  (** [os.Stat(name)]: the error, if any *)
  os_stat : World -> string -> option error;
  (** [Start] and [Wait] of a command, and the world it leaves *)
  os_spawn : World -> Cmd -> ProcOutcome * World
}.

(** Levels of [github.com/google/logger]. *)
Inductive Level : Type := Info | Error | Fatal.

(** What a run does that can be observed from outside: a call of the logger
    ([Infof], [Errorf] or [Fatalf], with the format string and the operands
    it was given), a call of [os.Stat] with its answer, and a command
    started with its outcome. *)
Inductive Event : Type :=
| EvLog (lvl : Level) (format : string) (operands : list string)
| EvStat (name : string) (res : option error)
| EvStart (c : Cmd) (res : ProcOutcome).

(* ===================================================================== *)
(** ** The monad of [main.go]'s effectful functions *)
(* ===================================================================== *)

(** A call either returns a value or ends the whole program: [Log.Fatalf]
    writes its entry and calls [os.Exit(1)]. *)
Inductive Outcome (A : Type) : Type :=
| Returned (a : A)
| Exit (status : nat).
Arguments Returned {A} a.
Arguments Exit {A} status.

Record State (World : Type) : Type := mkState {
  world : World;
  trace : list Event
}.
Arguments mkState {World} world trace.
Arguments world {World} s.
Arguments trace {World} s.

Definition Prog (World A : Type) : Type :=
  State World -> Outcome A * State World.

#[global] Instance Monad_Prog (World : Type) : Monad (Prog World) := {|
  ret := fun A (a : A) s => (Returned a, s);
  bind := fun A B (m : Prog World A) (k : A -> Prog World B) s =>
    match m s with
    | (Returned a, s') => k a s'
    | (Exit n, s') => (Exit n, s')
    end
|}.

Section Primitives.
Context {World : Type} `{OS World}.

Definition emit (e : Event) : Prog World unit :=
  fun s => (Returned tt, mkState (world s) (trace s ++ [e])).

Definition Log_Infof (format : string) (ops : list string) : Prog World unit :=
  emit (EvLog Info format ops).

Definition Log_Errorf (format : string) (ops : list string) : Prog World unit :=
  emit (EvLog Error format ops).

(** [Log.Fatalf]: the entry is written, then the program exits with
    status 1; nothing after it runs. *)
Definition Log_Fatalf {A : Type} (format : string) (ops : list string)
  : Prog World A :=
  fun s => (Exit 1, mkState (world s) (trace s ++ [EvLog Fatal format ops])).

Definition time_Now : Prog World Time :=
  fun s => (Returned (os_now (world s)), s).

Definition os_Stat (name : string) : Prog World (option error) :=
  fun s => let r := os_stat (world s) name in
           (Returned r, mkState (world s) (trace s ++ [EvStat name r])).

(** [Start] followed by [Wait]. *)
Definition start_and_wait (c : Cmd) : Prog World ProcOutcome :=
  fun s => let (r, w') := os_spawn (world s) c in
           (Returned r, mkState w' (trace s ++ [EvStart c r])).

End Primitives.

(* ===================================================================== *)
(** ** [strings.TrimSpace], with the UTF-8 decoding it relies on *)
(* ===================================================================== *)

Module Utf8.

Definition RuneError : N := 65533.   (* U+FFFD *)
Definition RuneSelf : N := 128.
Definition UTFMax : nat := 4.

(** [s[lo:hi]] and the byte [s[i]]. *)
Definition slice (s : string) (lo hi : nat) : string := substring lo (hi - lo) s.
Definition byte (s : string) (i : nat) : N :=
  match get i s with
  | Some c => N_of_ascii c
  | None => 0
  end.

(** Table [first] of package [utf8]: information about the first byte of an
    encoding ([as] = 0xF0 for ASCII, [xx] = 0xF1 for an invalid byte,
    otherwise accept-range index in the high nibble and size in the low). *)
Definition t_as : N := 240.
Definition t_xx : N := 241.
Definition first (b : N) : N :=
  if b <? 128 then t_as
  else if b <? 194 then t_xx          (* 0x80-0xC1 *)
  else if b <? 224 then 2             (* 0xC2-0xDF: s1 *)
  else if b =? 224 then 19            (* 0xE0: s2 = 0x13 *)
  else if b <? 237 then 3             (* 0xE1-0xEC: s3 *)
  else if b =? 237 then 35            (* 0xED: s4 = 0x23 *)
  else if b <? 240 then 3             (* 0xEE-0xEF: s3 *)
  else if b =? 240 then 52            (* 0xF0: s5 = 0x34 *)
  else if b <? 244 then 4             (* 0xF1-0xF3: s6 *)
  else if b =? 244 then 68            (* 0xF4: s7 = 0x44 *)
  else t_xx.                          (* 0xF5-0xFF *)

(** [acceptRanges]: bounds of the second byte. *)
Definition acceptRanges (i : N) : N * N :=
  match i with
  | 0 => (128, 191)
  | 1 => (160, 191)
  | 2 => (128, 159)
  | 3 => (144, 191)
  | 4 => (128, 143)
  | _ => (0, 0)
  end%N.

Definition locb : N := 128.
Definition hicb : N := 191.

(** [utf8.DecodeRuneInString]: the rune at the start of [s] and its width
    in bytes; [(RuneError, 0)] for the empty string and [(RuneError, 1)] for
    an invalid encoding. *)
Definition DecodeRuneInString (s : string) : N * nat :=
  let n := String.length s in
  if (n <? 1)%nat then (RuneError, 0%nat)
  else
    let s0 := byte s 0 in
    let x := first s0 in
    if t_as <=? x then ((if x =? t_xx then RuneError else s0), 1%nat)
    else
      let sz := N.to_nat (N.land x 7) in
      let accept := acceptRanges (N.shiftr x 4) in
      if (n <? sz)%nat then (RuneError, 1%nat)
      else
        let s1 := byte s 1 in
        if (s1 <? fst accept) || (snd accept <? s1) then (RuneError, 1%nat)
        else if (sz <=? 2)%nat then
          (N.lor (N.shiftl (N.land s0 31) 6) (N.land s1 63), 2%nat)
        else
          let s2 := byte s 2 in
          if (s2 <? locb) || (hicb <? s2) then (RuneError, 1%nat)
          else if (sz <=? 3)%nat then
            (N.lor (N.lor (N.shiftl (N.land s0 15) 12)
                          (N.shiftl (N.land s1 63) 6)) (N.land s2 63), 3%nat)
          else
            let s3 := byte s 3 in
            if (s3 <? locb) || (hicb <? s3) then (RuneError, 1%nat)
            else
              (N.lor (N.lor (N.lor (N.shiftl (N.land s0 7) 18)
                                   (N.shiftl (N.land s1 63) 12))
                            (N.shiftl (N.land s2 63) 6)) (N.land s3 63), 4%nat).

(** [utf8.RuneStart]: not a continuation byte. *)
Definition RuneStart (b : N) : bool := negb (N.land b 192 =? 128).

(** The loop of [DecodeLastRuneInString] that walks back from [start] to
    the start of a rune, no further than [lim]; the result is the final
    value of [start], or [None] when the loop ran below index 0. *)
Fixpoint back_to_start (s : string) (lim : nat) (start : nat) : option nat :=
  if (start <? lim)%nat then Some start
  else if RuneStart (byte s start) then Some start
  else match start with
       | O => None
       | S k => back_to_start s lim k
       end.

(** [utf8.DecodeLastRuneInString]. *)
Definition DecodeLastRuneInString (s : string) : N * nat :=
  let e := String.length s in
  if (e =? 0)%nat then (RuneError, 0%nat)
  else
    let start := (e - 1)%nat in
    let r := byte s start in
    if r <? RuneSelf then (r, 1%nat)
    else
      let lim := (e - UTFMax)%nat in
      let start :=
        match start with
        | O => 0%nat                      (* start-- gives -1, reset to 0 *)
        | S k => match back_to_start s lim k with
                 | Some i => i
                 | None => 0%nat
                 end
        end in
      let (r, size) := DecodeRuneInString (slice s start e) in
      if negb (start + size =? e)%nat then (RuneError, 1%nat)
      else (r, size).

(** [unicode.IsSpace]: the Latin-1 spaces, and outside Latin-1 the
    [White_Space] range table. *)
Definition IsSpace (r : N) : bool :=
  if r <=? 255 then
    (r =? 9) || (r =? 10) || (r =? 11) || (r =? 12) || (r =? 13) ||
    (r =? 32) || (r =? 133) || (r =? 160)
  else
    (r =? 5760) ||                         (* U+1680 *)
    ((8192 <=? r) && (r <=? 8202)) ||      (* U+2000-U+200A *)
    (r =? 8232) || (r =? 8233) ||          (* U+2028, U+2029 *)
    (r =? 8239) || (r =? 8287) ||          (* U+202F, U+205F *)
    (r =? 12288).                          (* U+3000 *)

(** [asciiSpace] of package [strings]. *)
Definition asciiSpace (c : N) : bool :=
  (c =? 9) || (c =? 10) || (c =? 11) || (c =? 12) || (c =? 13) || (c =? 32).

Section TrimFunc.
Variable f : N -> bool.

(** [indexFunc(s, f, truth)]: [for i, r := range s], from index [i]; the
    index of the first rune with [f(r) == truth], [None] for -1.  Every
    rune is at least one byte wide, so [fuel] bytes left suffice. *)
Fixpoint indexFunc_from (fuel : nat) (s : string) (i : nat) (truth : bool)
  : option nat :=
  match fuel with
  | O => None
  | S k =>
    if (String.length s <=? i)%nat then None
    else
      let (r, size) := DecodeRuneInString (slice s i (String.length s)) in
      if Bool.eqb (f r) truth then Some i
      else indexFunc_from k s (i + size) truth
  end.

Definition indexFunc (s : string) (truth : bool) : option nat :=
  indexFunc_from (String.length s) s 0 truth.

(** [lastIndexFunc(s, f, truth)]: [for i := len(s); i > 0;], from [i]. *)
Fixpoint lastIndexFunc_from (fuel : nat) (s : string) (i : nat) (truth : bool)
  : option nat :=
  match fuel with
  | O => None
  | S k =>
    if (i =? 0)%nat then None
    else
      let (r, size) := DecodeLastRuneInString (slice s 0 i) in
      let i := (i - size)%nat in
      if Bool.eqb (f r) truth then Some i
      else lastIndexFunc_from k s i truth
  end.

Definition lastIndexFunc (s : string) (truth : bool) : option nat :=
  lastIndexFunc_from (String.length s) s (String.length s) truth.

Definition TrimLeftFunc (s : string) : string :=
  match indexFunc s false with
  | None => ""
  | Some i => slice s i (String.length s)
  end.

Definition TrimRightFunc (s : string) : string :=
  match lastIndexFunc s false with
  | Some i =>
    if RuneSelf <=? byte s i then
      let (_, wid) := DecodeRuneInString (slice s i (String.length s)) in
      slice s 0 (i + wid)
    else slice s 0 (i + 1)
  | None => slice s 0 0                    (* i = -1, then i++ *)
  end.

Definition TrimFunc (s : string) : string := TrimRightFunc (TrimLeftFunc s).
End TrimFunc.

(** The second loop of [TrimSpace], on [s[start:]]: [stop] walks back over
    ASCII spaces, and hands over to [TrimRightFunc] at a non-ASCII byte. *)
Fixpoint TrimSpace_stop (s : string) (stop : nat) : string :=
  match stop with
  | O => slice s 0 0
  | S k =>
    let c := byte s k in
    if RuneSelf <=? c then TrimRightFunc IsSpace (slice s 0 stop)
    else if asciiSpace c then TrimSpace_stop s k
    else slice s 0 stop
  end.

(** [strings.TrimSpace]: the first loop walks [start] over ASCII spaces and
    hands over to [TrimFunc] at a non-ASCII byte. *)
Fixpoint TrimSpace (s : string) : string :=
  match s with
  | EmptyString => ""
  | String a t =>
    let c := N_of_ascii a in
    if RuneSelf <=? c then TrimFunc IsSpace s
    else if asciiSpace c then TrimSpace t
    else TrimSpace_stop s (String.length s)
  end.

End Utf8.
Import Utf8.

(** *** What trimming means on ASCII text

    A second definition, from the words of the documentation of
    [strings.TrimSpace] ("all leading and trailing white space removed"),
    for strings of ASCII bytes: it is compared with [TrimSpace] below. *)

Fixpoint all_ascii (s : string) : bool :=
  match s with
  | EmptyString => true
  | String a t => (N_of_ascii a <? RuneSelf) && all_ascii t
  end.

Fixpoint trim_left (s : string) : string :=
  match s with
  | EmptyString => ""
  | String a t => if asciiSpace (N_of_ascii a) then trim_left t else s
  end.

Fixpoint trim_right (s : string) : string :=
  match s with
  | EmptyString => ""
  | String a t =>
    match trim_right t with
    | EmptyString => if asciiSpace (N_of_ascii a) then "" else String a ""
    | r => String a r
    end
  end.

Definition trim_ascii (s : string) : string := trim_right (trim_left s).

(** [t] is a piece of [s]. *)
Definition infix (t s : string) : Prop :=
  exists pre post : string, s = pre ++ t ++ post.

(** *** What trimming means on any text

    White space, as [unicode.IsSpace] has it, in UTF-8: a string made of
    the encodings of white-space characters, one after the other.  A piece
    [c] is the encoding of the character [r] when the decoder reads [r]
    from [c] and uses all of [c]. *)
Inductive SpaceRunes : string -> Prop :=
| SpaceRunes_nil : SpaceRunes ""
| SpaceRunes_cons (c rest : string) (r : N) :
    DecodeRuneInString c = (r, String.length c) ->
    IsSpace r = true ->
    SpaceRunes rest ->
    SpaceRunes (c ++ rest).

(** [t] is [s] trimmed: [s] is [t] between two strings of white space, and
    neither the first character of [t] nor its last is white space. *)
Definition trimmed (s t : string) : Prop :=
  exists pre post : string,
    s = pre ++ t ++ post /\
    SpaceRunes pre /\
    SpaceRunes post /\
    IsSpace (fst (DecodeRuneInString t)) = false /\
    IsSpace (fst (DecodeLastRuneInString t)) = false.

(** The decoder of [DecodeRuneInString] past the first byte, for a first
    byte that announces [sz] bytes with a second byte from [lo] to [hi]:
    the part of the function that follows [accept := acceptRanges[x>>4]]. *)
Definition decode_multi (sz : nat) (lo hi : N) (n : nat) (s0 s1 s2 s3 : N)
  : N * nat :=
  if (n <? sz)%nat then (RuneError, 1%nat)
  else
    if (s1 <? lo) || (hi <? s1) then (RuneError, 1%nat)
    else if (sz <=? 2)%nat then
      (N.lor (N.shiftl (N.land s0 31) 6) (N.land s1 63), 2%nat)
    else
      if (s2 <? locb) || (hicb <? s2) then (RuneError, 1%nat)
      else if (sz <=? 3)%nat then
        (N.lor (N.lor (N.shiftl (N.land s0 15) 12)
                      (N.shiftl (N.land s1 63) 6)) (N.land s2 63), 3%nat)
      else
        if (s3 <? locb) || (hicb <? s3) then (RuneError, 1%nat)
        else
          (N.lor (N.lor (N.lor (N.shiftl (N.land s0 7) 18)
                               (N.shiftl (N.land s1 63) 12))
                        (N.shiftl (N.land s2 63) 6)) (N.land s3 63), 4%nat).

(** What the first byte announces: the size and the bounds of the second
    byte. *)
Definition lead_size (b : N) : nat := N.to_nat (N.land (first b) 7).
Definition lead_lo (b : N) : N := fst (acceptRanges (N.shiftr (first b) 4)).
Definition lead_hi (b : N) : N := snd (acceptRanges (N.shiftr (first b) 4)).

(** The bytes of [s] from index [i] on, [s[i:]], and its first [j] bytes,
    [s[:j]]. *)
Definition drop (i : nat) (s : string) : string := slice s i (String.length s).
Definition take (j : nat) (s : string) : string := slice s 0 j.

(** Proof steps: the tests of the code as propositions, and a case for
    each branch. *)
Ltac to_prop :=
  repeat match goal with
  | H : N.ltb _ _ = true |- _ => apply N.ltb_lt in H
  | H : N.ltb _ _ = false |- _ => apply N.ltb_ge in H
  | H : N.leb _ _ = true |- _ => apply N.leb_le in H
  | H : N.leb _ _ = false |- _ => apply N.leb_gt in H
  | H : N.eqb _ _ = true |- _ => apply N.eqb_eq in H
  | H : N.eqb _ _ = false |- _ => apply N.eqb_neq in H
  | H : Nat.ltb _ _ = true |- _ => apply Nat.ltb_lt in H
  | H : Nat.ltb _ _ = false |- _ => apply Nat.ltb_ge in H
  | H : Nat.leb _ _ = true |- _ => apply Nat.leb_le in H
  | H : Nat.leb _ _ = false |- _ => apply Nat.leb_gt in H
  | H : orb _ _ = true |- _ => apply orb_prop in H; destruct H
  | H : orb _ _ = false |- _ => apply orb_false_elim in H; destruct H
  end.

Ltac split_ifs :=
  repeat match goal with
  | |- context [if ?c then _ else _] => destruct c eqn:?
  | H : context [if ?c then _ else _] |- _ => destruct c eqn:?
  end.

(* ===================================================================== *)
(** ** [main.go] *)
(* ===================================================================== *)

(** The loop of [PathJoin]: [rest] is [elem[i:]], the part of [elem] the
    [range] has still to visit. *)
Fixpoint PathJoin_loop (elem : list string) (i : nat) (rest : list string)
  : string :=
  match rest with
  | [] => ""
  | e :: rest' =>
    if negb (e =? "")%string then Join (skipn i elem) "\"
    else PathJoin_loop elem (S i) rest'
  end.

(** [PathJoin]: to join paths. *)
Definition PathJoin (elem : list string) : string := PathJoin_loop elem 0 elem.

Section Main.
Context {World : Type} `{OS World}.

(** The [exec.Cmd] that [ExecCmd] builds from its options. *)
Definition command_of (options : CmdOptions) : Cmd :=
  let command :=
    mkCmd (Command options) (Command options :: Args options) "" false in
  let command :=
    mkCmd (cmd_Path command) (cmd_Args command) (cmd_Dir command)
          (HideWindow options) in
  if negb (WorkingDir options =? "")%string
  then mkCmd (cmd_Path command) (cmd_Args command) (WorkingDir options)
             (cmd_HideWindow command)
  else command.

(** [ExecCmd]: to execute a system command.  The two results of the Go
    function are a pair; [None] is the [nil] error. *)
Definition ExecCmd (options : CmdOptions)
  : Prog World (CmdResult * option error) :=
  let result := mkCmdResult options 0 "" "" in
  let command := command_of options in
  Log_Infof "Exec %s %s" [Command options; Join (Args options) " "] ;;
  started <- start_and_wait command ;;
  match started with
  | StartError err => ret (result, Some err)
  | Exited waitStatus commandStdout commandStderr =>
    let result := mkCmdResult (Options result) waitStatus
                              (Stdout result) (Stderr result) in
    let result := mkCmdResult (Options result) (ExitCode result)
                              (TrimSpace commandStdout) (Stderr result) in
    let result := mkCmdResult (Options result) (ExitCode result)
                              (Stdout result) (TrimSpace commandStderr) in
    ret (result, None)
  end.

(** The report of a non-zero exit code that ends both registry helpers. *)
Definition report_exit (cmdResult : CmdResult) : Prog World unit :=
  if negb (ExitCode cmdResult =? 0) then
    Log_Errorf (Sprintf_d (ExitCode cmdResult)) [] ;;
    if (0 <? String.length (Stderr cmdResult))%nat
    then Log_Errorf (Sprintf_s_nl (Stderr cmdResult)) []
    else ret tt
  else ret tt.

Definition export_options (reg : RegExportImport) : CmdOptions :=
  {| Command := "reg";
     Args := ["export"; Key reg; File reg; "/y"; Sprintf_reg (Arch reg)];
     WorkingDir := "";
     HideWindow := true |}.

(** [ExportRegKey]: export a registry key. *)
Definition ExportRegKey (reg : RegExportImport) : Prog World unit :=
  '(cmdResult, err) <- ExecCmd (export_options reg) ;;
  match err with
  | Some e => Log_Fatalf "Cannot export registry key '%s': %v" [Key reg; e]
  | None => report_exit cmdResult
  end.

Definition import_options (reg : RegExportImport) : CmdOptions :=
  {| Command := "reg";
     Args := ["import"; File reg; Sprintf_reg (Arch reg)];
     WorkingDir := "";
     HideWindow := true |}.

(** The registry file that [ImportRegKey] saves the current key to, for
    the clock reading [t]. *)
Definition backup_of (reg : RegExportImport) (t : Time) : RegExportImport :=
  {| Key := Key reg;
     Arch := Arch reg;
     File := Sprintf_s_dot_s (File reg) (Format_20060102150405 t) |}.

(** [ImportRegKey]: import a registry key. *)
Definition ImportRegKey (reg : RegExportImport) : Prog World unit :=
  (* Save current reg key *)
  now <- time_Now ;;
  ExportRegKey (backup_of reg now) ;;
  (* Check if reg file exists *)
  st <- os_Stat (File reg) ;;
  match st with
  | Some _ => ret tt
  | None =>
    (* Import *)
    '(cmdResult, err) <- ExecCmd (import_options reg) ;;
    match err with
    | Some e => Log_Fatalf "Cannot import registry file '%s': %v" [File reg; e]
    | None => report_exit cmdResult
    end
  end.

(** A run from a world, with an empty trace. *)
Definition run {A : Type} (p : Prog World A) (w : World)
  : Outcome A * State World := p (mkState w []).

End Main.

(* ===================================================================== *)
(** ** Reading a trace *)
(* ===================================================================== *)

(** The commands a run started, in order. *)
Fixpoint started (tr : list Event) : list Cmd :=
  match tr with
  | [] => []
  | EvStart c _ :: tr' => c :: started tr'
  | _ :: tr' => started tr'
  end.

(** The texts handed to [Log.Errorf], in order. *)
Fixpoint errors_logged (tr : list Event) : list string :=
  match tr with
  | [] => []
  | EvLog Error format _ :: tr' => format :: errors_logged tr'
  | _ :: tr' => errors_logged tr'
  end.

(** The command lines of [reg export] and [reg import], as the process
    receives them: the program name, then the arguments. *)
Definition reg_export_cmd (key file arch : string) : Cmd :=
  mkCmd "reg" ["reg"; "export"; key; file; "/y"; "/reg:" ++ arch] "" true.

Definition reg_import_cmd (file arch : string) : Cmd :=
  mkCmd "reg" ["reg"; "import"; file; "/reg:" ++ arch] "" true.

(** The entry that [ExecCmd] logs before it starts a command. *)
Definition exec_log (options : CmdOptions) : Event :=
  EvLog Info "Exec %s %s" [Command options; Join (Args options) " "].

(** The elements of [elem] from the first non-empty one on. *)
Fixpoint skip_empty (elem : list string) : list string :=
  match elem with
  | [] => []
  | e :: rest => if (e =? "")%string then skip_empty rest else elem
  end.

(** The events of [report_exit]. *)
Definition exit_report (code : N) (stderr : string) : list Event :=
  if negb (code =? 0) then
    EvLog Error (decimal code) [] ::
    (if (0 <? String.length stderr)%nat
     then [EvLog Error (stderr ++ newline) []] else [])
  else [].

(** Decimal value of a string of digits. *)
Definition digit_value (a : ascii) : option N :=
  let n := N_of_ascii a in
  if (48 <=? n) && (n <=? 57) then Some (n - 48) else None.

Fixpoint decimal_value_from (acc : N) (s : string) : option N :=
  match s with
  | EmptyString => Some acc
  | String a t =>
    match digit_value a with
    | Some d => decimal_value_from (10 * acc + d) t
    | None => None
    end
  end.

Definition decimal_value (s : string) : option N := decimal_value_from 0 s.

(** [s] is the [w]-digit decimal numeral of [x]. *)
Definition numeral (w : nat) (x : Z) (s : string) : Prop :=
  String.length s = w /\ decimal_value s = Some (Z.to_N x) /\ (0 <= x)%Z.

(** The boolean form of [numeral w x (appendInt x w)]. *)
Definition numeralb (w : nat) (x : Z) : bool :=
  (String.length (appendInt x w) =? w)%nat &&
  match decimal_value (appendInt x w) with
  | Some v => v =? Z.to_N x
  | None => false
  end &&
  (0 <=? x)%Z.

(** The file argument of the first command of a run: for [ImportRegKey],
    the file that the backup is written to. *)
Definition first_file (tr : list Event) : option string :=
  match started tr with
  | c :: _ => nth_error (cmd_Args c) 3
  | [] => None
  end.

(* ===================================================================== *)
(** ** A simulated operating system, to run the functions on *)
(* ===================================================================== *)

Module Sim.

(** A world with a clock, the names of the files that exist, and a script:
    what the next commands do and what the clock reads when each is over. *)
Record SimWorld : Type := mkSim {
  sim_now : Time;
  sim_files : list string;
  sim_script : list (ProcOutcome * Time)
}.

Definition sim_stat (w : SimWorld) (name : string) : option error :=
  if existsb (String.eqb name) (sim_files w) then None
  else Some "The system cannot find the file specified.".

(** [reg export KEY FILE ...] that exits with 0 leaves [FILE] on disk. *)
Definition sim_written (c : Cmd) (r : ProcOutcome) : list string :=
  match r, cmd_Args c with
  | Exited 0 _ _, _ :: "export"%string :: _ :: file :: _ => [file]
  | _, _ => []
  end.

Definition sim_spawn (w : SimWorld) (c : Cmd) : ProcOutcome * SimWorld :=
  match sim_script w with
  | [] => (StartError "executable file not found in %PATH%", w)
  | (r, t) :: script =>
    (r, mkSim t (sim_written c r ++ sim_files w) script)
  end.

#[global] Instance SimOS : OS SimWorld := {|
  os_now := sim_now;
  os_stat := sim_stat;
  os_spawn := sim_spawn
|}.

Definition t0 : Time := mkTime 2026 10 31 7 4 5 100000000.
Definition t1 : Time := mkTime 2026 10 31 7 4 5 350000000.
Definition t2 : Time := mkTime 2026 10 31 7 4 5 600000000.
Definition t3 : Time := mkTime 2026 10 31 7 4 6 20000000.

Definition foo : RegExportImport :=
  mkReg "HKCU\Software\Foo" "64" "C:\backup\foo.reg".

End Sim.

Module SimRuns.
Import Sim.

(** A world where [reg] fails twice: [reg export] exits with 1, and so
    does the [reg import] after it. *)
Definition w_soft : SimWorld :=
  mkSim t0 ["C:\backup\foo.reg"]
        [(Exited 1 "" "ERROR: Access is denied.", t1);
         (Exited 1 "" "ERROR: Access is denied.", t3)].

Definition w_soft1 : SimWorld :=
  mkSim t1 ["C:\backup\foo.reg"] [(Exited 1 "" "ERROR: Access is denied.", t3)].

Definition w_soft2 : SimWorld := mkSim t3 ["C:\backup\foo.reg"] [].

(** A world with no file to import. *)
Definition w_nofile : SimWorld := mkSim t0 [] [(Exited 0 "" "", t1)].

Definition w_nofile1 : SimWorld :=
  mkSim t1 ["C:\backup\foo.reg.20261031070405"] [].

(** A world without [reg]. *)
Definition w_noreg : SimWorld := mkSim t0 [] [].

Definition ping : CmdOptions :=
  mkCmdOptions "ping" ["-n"; "1"; "localhost"] "" false.

(** A world where [reg] takes a quarter of a second: two imports of
    [foo.reg], one after the other, start within the same second. *)
Definition w_quick : SimWorld :=
  mkSim t0 ["C:\backup\foo.reg"]
        [(Exited 0 "" "", t1); (Exited 0 "" "", t2);
         (Exited 0 "" "", t3); (Exited 0 "" "", t3)].

(** A world where the command prints its answer between blank lines. *)
Definition reply : string :=
  newline ++ "Reply from ::1: time<1ms " ++ newline ++ newline.

Definition w_reply : SimWorld := mkSim t0 [] [(Exited 0 reply "", t1)].

Definition w_reply1 : SimWorld := mkSim t1 [] [].

(** A world where the command answers in French, after a no-break space
    (C2 A0) and a blank, and before a blank, a line feed and an ideographic
    space (E3 80 80); the bytes of the word are C3 A9 74 C3 A9. *)
Definition bytes (l : list N) : string := string_of_list_ascii (map ascii_of_N l).

Definition ete : string := bytes [195; 169; 116; 195; 169].

Definition reply_fr : string :=
  bytes [194; 160; 32] ++ ete ++ bytes [32; 10; 227; 128; 128].

Definition w_fr : SimWorld := mkSim t0 [] [(Exited 0 reply_fr reply_fr, t1)].

End SimRuns.

(* ===================================================================== *)
(** ** The rest of [main.go]: [AppPathJoin], [Launch],
       [FindElectronAppFolder] *)
(* ===================================================================== *)

(** [strings.HasPrefix(s, prefix)]: [s] is at least as long as [prefix] and
    starts with its bytes. *)
Definition HasPrefix (s prefix : string) : bool := String.prefix prefix s.

Module App.

(** [papp]: the settings of the application, the type of the global [Papp]. *)
Record papp : Type := mkPapp {
  ID : string;
  Name : string;
  Path : string;
  AppPath : string;
  DataPath : string;
  Process : string;
  Args : list string;
  WorkingDir : string
}.

End App.

(** [AppPathJoin]: to join paths from [Papp.Path].  The function reads the
    global [Papp], which is an argument here. *)
Definition AppPathJoin (Papp : App.papp) (elem : list string) : string :=
  PathJoin ([App.Path Papp] ++ elem)%list.

(** What [os.FileInfo] tells [FindElectronAppFolder] of a directory entry. *)
Record FileInfo : Type := mkFileInfo {
  fi_Name : string;
  fi_IsDir : bool
}.

(** Reading a directory: [ioutil.ReadDir(dirname)] gives the entries of the
    directory, or an error ([None]) and then no entry. *)
Class Dirs (World : Type) : Type := {
  os_readdir : World -> string -> option (list FileInfo)
}.

Section Launcher.
Context {World : Type} `{OS World}.

(** [Launch]: to execute the app.  The standard output and standard error of
    the command are the log file: what the process writes goes there, and
    [Launch] reads neither it nor the result of [Wait].  No [SysProcAttr] is
    set, so the window is not hidden. *)
Definition Launch (Papp : App.papp) : Prog World unit :=
  Log_Infof "Process: %s" [App.Process Papp] ;;
  Log_Infof "Args: %s" [Join (App.Args Papp) " "] ;;
  Log_Infof "Working dir: %s" [App.WorkingDir Papp] ;;
  Log_Infof "Data path: %s" [App.DataPath Papp] ;;
  Log_Infof "Launch %s..." [App.Name Papp] ;;
  let execute :=
    mkCmd (App.Process Papp) (App.Process Papp :: App.Args Papp) "" false in
  let execute :=
    mkCmd (cmd_Path execute) (cmd_Args execute) (App.WorkingDir Papp)
          (cmd_HideWindow execute) in
  Log_Infof "Exec %s %s" [App.Process Papp; Join (App.Args Papp) " "] ;;
  started <- start_and_wait execute ;;
  match started with
  | StartError err => Log_Fatalf "Command failed: %v" [err]
  | Exited _ _ _ => ret tt
  end.

End Launcher.

Section Folders.
Context {World : Type} `{Dirs World}.

(** [rootFiles, _ := ioutil.ReadDir(source)]: the error is dropped, and the
    list is then [nil]. *)
Definition ioutil_ReadDir (source : string) : Prog World (list FileInfo) :=
  fun s => (Returned (match os_readdir (world s) source with
                      | Some rootFiles => rootFiles
                      | None => []
                      end), s).

(** The [range] loop of [FindElectronAppFolder]: the name it returns, or
    [None] when the loop runs to its end. *)
Fixpoint FindElectronAppFolder_loop (prefix : string) (rootFiles : list FileInfo)
  : Prog World (option string) :=
  match rootFiles with
  | [] => ret None
  | f :: rest =>
    if HasPrefix (fi_Name f) prefix && fi_IsDir f then
      Log_Infof "Electron app folder found: %s" [fi_Name f] ;;
      ret (Some (fi_Name f))
    else FindElectronAppFolder_loop prefix rest
  end.

(** [FindElectronAppFolder]: retrieved the app electron folder. *)
Definition FindElectronAppFolder (prefix source : string) : Prog World string :=
  Log_Infof "Lookup app folder in: %s" [source] ;;
  rootFiles <- ioutil_ReadDir source ;;
  found <- FindElectronAppFolder_loop prefix rootFiles ;;
  match found with
  | Some name => ret name
  | None =>
    Log_Fatalf "Electron main path does not exist with prefix '%s' in %s"
               [prefix; source]
  end.

End Folders.

(** *** More readers of traces *)

(** The calls of [os.Stat] of a run: the names asked for. *)
Fixpoint stats (tr : list Event) : list string :=
  match tr with
  | [] => []
  | EvStat name _ :: tr' => name :: stats tr'
  | _ :: tr' => stats tr'
  end.

(** The entries written with [Log.Fatalf], and those written with
    [Log.Infof]. *)
Fixpoint fatals_logged (tr : list Event) : list (string * list string) :=
  match tr with
  | [] => []
  | EvLog Fatal format ops :: tr' => (format, ops) :: fatals_logged tr'
  | _ :: tr' => fatals_logged tr'
  end.

Fixpoint infos_logged (tr : list Event) : list (string * list string) :=
  match tr with
  | [] => []
  | EvLog Info format ops :: tr' => (format, ops) :: infos_logged tr'
  | _ :: tr' => infos_logged tr'
  end.

(** The directory entries that [FindElectronAppFolder] looks for. *)
Definition matches (prefix : string) (f : FileInfo) : bool :=
  HasPrefix (fi_Name f) prefix && fi_IsDir f.

(** *** Order *)

(** The order of two readings of the clock, field by field from the year
    down to the second. *)
Definition lexico (c : comparison) (rest : comparison) : comparison :=
  match c with
  | Eq => rest
  | _ => c
  end.

Definition compare_seconds (a b : Time) : comparison :=
  lexico (year a ?= year b)%Z
    (lexico (month a ?= month b)%Z
       (lexico (day a ?= day b)%Z
          (lexico (hour a ?= hour b)%Z
             (lexico (minute a ?= minute b)%Z (second a ?= second b)%Z)))).

(** Checks by computation on the numerals of two and four digits: the order
    of the numerals of two digits is the order of the numbers, and a numeral
    of four digits is two numerals of two digits. *)
Definition two_digits_ordered (x y : Z) : bool :=
  match String.compare (appendInt x 2) (appendInt y 2), (x ?= y)%Z with
  | Eq, Eq | Lt, Lt | Gt, Gt => true
  | _, _ => false
  end.

Definition four_digits_split (x : Z) : bool :=
  (appendInt x 4 =? appendInt (x / 100) 2 ++ appendInt (x mod 100) 2)%string.

(** A string with no ASCII white space at either end. *)
Definition first_byte (s : string) : option N :=
  match s with
  | EmptyString => None
  | String a _ => Some (N_of_ascii a)
  end.

Fixpoint last_byte (s : string) : option N :=
  match s with
  | EmptyString => None
  | String a EmptyString => Some (N_of_ascii a)
  | String _ t => last_byte t
  end.

Definition is_space (b : option N) : bool :=
  match b with
  | Some c => asciiSpace c
  | None => false
  end.

Definition no_space_at_ends (s : string) : Prop :=
  is_space (first_byte s) = false /\ is_space (last_byte s) = false.

Fixpoint all_space (s : string) : bool :=
  match s with
  | EmptyString => true
  | String a t => asciiSpace (N_of_ascii a) && all_space t
  end.

(** *** Simulated directories and an application *)

Module SimApp.

(** A world of directories: each directory with its entries. *)
Definition DirWorld : Type := list (string * list FileInfo).

Fixpoint dir_lookup (w : DirWorld) (source : string) : option (list FileInfo) :=
  match w with
  | [] => None
  | (d, entries) :: w' =>
    if (d =? source)%string then Some entries else dir_lookup w' source
  end.

#[global] Instance SimDirs : Dirs DirWorld := {| os_readdir := dir_lookup |}.

Definition app_dir : DirWorld :=
  [("C:\apps\slack",
    [mkFileInfo "Update.exe" false;
     mkFileInfo "app-3.0.txt" false;
     mkFileInfo "app-3.1.2" true;
     mkFileInfo "app-3.2.0" true;
     mkFileInfo "packages" true])].

Definition slack : App.papp :=
  App.mkPapp "slack-portable" "Slack" "C:\apps\slack" "C:\apps\slack\app"
             "C:\apps\slack\data" "C:\apps\slack\app\slack.exe"
             ["--user-data-dir=C:\apps\slack\data"] "C:\apps\slack\app".

Definition w_app : Sim.SimWorld :=
  Sim.mkSim Sim.t0 [] [(Exited 3 "" "", Sim.t3)].

Definition w_app1 : Sim.SimWorld := Sim.mkSim Sim.t3 [] [].

End SimApp.

(* ===================================================================== *)
(** ** Lemmas on strings *)
(* ===================================================================== *)

Lemma length_append (a b : string) :
  String.length (a ++ b) = (String.length a + String.length b)%nat.
Proof. induction a as [|c a IH]; simpl; [reflexivity | now rewrite IH]. Qed.

Lemma append_empty_r (a : string) : a ++ "" = a.
Proof. induction a as [|c a IH]; simpl; [reflexivity | now rewrite IH]. Qed.

Lemma append_assoc (a b c : string) : (a ++ b) ++ c = a ++ b ++ c.
Proof. induction a as [|x a IH]; simpl; [reflexivity | now rewrite IH]. Qed.

(** Two concatenations whose first parts have the same length are equal
    part by part. *)
Lemma append_inj_length (a a' b b' : string) :
  String.length a = String.length a' -> a ++ b = a' ++ b' -> a = a' /\ b = b'.
Proof.
  revert a'. induction a as [|x a IH]; intros [|x' a'] Hl Heq;
    simpl in *; try discriminate.
  - now split.
  - injection Heq as -> Heq. injection Hl as Hl.
    destruct (IH a' Hl Heq) as [-> ->]. now split.
Qed.

Lemma append_longer (a b : string) : b <> "" -> a ++ b <> a.
Proof.
  intros Hb Heq. apply (f_equal String.length) in Heq.
  rewrite length_append in Heq. destruct b; [now apply Hb | simpl in Heq; lia].
Qed.

(* ===================================================================== *)
(** ** What the runs are *)
(* ===================================================================== *)

Section Runs.
Context {World : Type} `{OS World}.

Lemma command_of_export (reg : RegExportImport) :
  command_of (export_options reg) = reg_export_cmd (Key reg) (File reg) (Arch reg).
Proof. reflexivity. Qed.

Lemma command_of_import (reg : RegExportImport) :
  command_of (import_options reg) = reg_import_cmd (File reg) (Arch reg).
Proof. reflexivity. Qed.

Lemma command_of_HideWindow (options : CmdOptions) :
  cmd_HideWindow (command_of options) = HideWindow options.
Proof. unfold command_of. now destruct (negb _). Qed.


(** [ExecCmd] by the outcome of its command. *)
Lemma ExecCmd_run (options : CmdOptions) (s : State World) :
  ExecCmd options s =
  let c := command_of options in
  match os_spawn (world s) c with
  | (StartError e as r, w') =>
    (Returned (mkCmdResult options 0 "" "", Some e),
     mkState w' (trace s ++ [exec_log options; EvStart c r]))
  | (Exited code out err as r, w') =>
    (Returned (mkCmdResult options code (TrimSpace out) (TrimSpace err), None),
     mkState w' (trace s ++ [exec_log options; EvStart c r]))
  end.
Proof.
  unfold ExecCmd, Log_Infof, emit, start_and_wait, exec_log. cbn.
  destruct (os_spawn (world s) (command_of options)) as [[e | code out err] w'];
    cbn; rewrite <- app_assoc; reflexivity.
Qed.

Lemma report_exit_run (r : CmdResult) (s : State World) :
  report_exit r s =
  (Returned tt, mkState (world s) (trace s ++ exit_report (ExitCode r) (Stderr r))).
Proof.
  unfold report_exit, exit_report, Log_Errorf, emit. destruct s as [w tr].
  destruct (negb (ExitCode r =? 0)).
  - destruct (0 <? String.length (Stderr r))%nat; cbn;
      rewrite <- ?app_assoc; reflexivity.
  - cbn. now rewrite app_nil_r.
Qed.

(** [ExportRegKey] by the outcome of [reg export]. *)
Lemma ExportRegKey_run (reg : RegExportImport) (s : State World) :
  ExportRegKey reg s =
  let o := export_options reg in
  let c := reg_export_cmd (Key reg) (File reg) (Arch reg) in
  match os_spawn (world s) c with
  | (StartError e as r, w') =>
    (Exit 1,
     mkState w' (trace s ++
       [exec_log o; EvStart c r;
        EvLog Fatal "Cannot export registry key '%s': %v" [Key reg; e]]))
  | (Exited code out err as r, w') =>
    (Returned tt,
     mkState w' (trace s ++
       [exec_log o; EvStart c r] ++ exit_report code (TrimSpace err)))
  end.
Proof.
  unfold ExportRegKey. cbn [bind Monad_Prog]. rewrite ExecCmd_run.
  rewrite command_of_export. cbn zeta.
  destruct (os_spawn (world s) _) as [[e | code out err] w'].
  - unfold Log_Fatalf. cbn. rewrite <- app_assoc. reflexivity.
  - rewrite report_exit_run. cbn [world trace ExitCode Stderr].
    rewrite <- app_assoc. reflexivity.
Qed.

(** [ImportRegKey] by the outcomes of [reg export], of [os.Stat] and of
    [reg import]. *)
Lemma ImportRegKey_run (reg : RegExportImport) (s : State World) :
  ImportRegKey reg s =
  let bak := backup_of reg (os_now (world s)) in
  match ExportRegKey bak s with
  | (Exit n, s1) => (Exit n, s1)
  | (Returned _, s1) =>
    let st := os_stat (world s1) (File reg) in
    let tr1 := (trace s1 ++ [EvStat (File reg) st])%list in
    match st with
    | Some _ => (Returned tt, mkState (world s1) tr1)
    | None =>
      let o := import_options reg in
      let c := reg_import_cmd (File reg) (Arch reg) in
      match os_spawn (world s1) c with
      | (StartError e as r, w2) =>
        (Exit 1,
         mkState w2 (tr1 ++
           [exec_log o; EvStart c r;
            EvLog Fatal "Cannot import registry file '%s': %v" [File reg; e]]))
      | (Exited code out err as r, w2) =>
        (Returned tt,
         mkState w2 (tr1 ++
           [exec_log o; EvStart c r] ++ exit_report code (TrimSpace err)))
      end
    end
  end.
Proof.
  unfold ImportRegKey, time_Now. cbn [bind Monad_Prog]. cbn zeta.
  destruct (ExportRegKey _ s) as [[[] | n] s1]; [| reflexivity].
  unfold os_Stat. cbn [world trace].
  destruct (os_stat (world s1) (File reg)) as [e |]; [reflexivity |].
  rewrite ExecCmd_run. rewrite command_of_import. cbn [world trace]. cbn zeta.
  destruct (os_spawn (world s1) _) as [[e | code out err] w2].
  - unfold Log_Fatalf. cbn. rewrite <- app_assoc. reflexivity.
  - rewrite report_exit_run. cbn [world trace ExitCode Stderr].
    rewrite <- app_assoc. reflexivity.
Qed.

End Runs.

(** [started] and [errors_logged] over a concatenation. *)
Lemma started_app (a b : list Event) :
  started (a ++ b) = (started a ++ started b)%list.
Proof.
  induction a as [|[] a IH]; simpl; [reflexivity | assumption | assumption |].
  now rewrite IH.
Qed.


Lemma started_exit_report (code : N) (stderr : string) :
  started (exit_report code stderr) = [].
Proof.
  unfold exit_report. destruct (negb _); [| reflexivity].
  now destruct (0 <? String.length stderr)%nat.
Qed.

Section RunsFromEmpty.
Context {World : Type} `{OS World}.

Lemma ExportRegKey_from (reg : RegExportImport) (w : World) :
  run (ExportRegKey reg) w =
  let c := reg_export_cmd (Key reg) (File reg) (Arch reg) in
  match os_spawn w c with
  | (StartError e as r, w') =>
    (Exit 1,
     mkState w'
       [exec_log (export_options reg); EvStart c r;
        EvLog Fatal "Cannot export registry key '%s': %v" [Key reg; e]])
  | (Exited code out err as r, w') =>
    (Returned tt,
     mkState w'
       ([exec_log (export_options reg); EvStart c r] ++
        exit_report code (TrimSpace err)))
  end.
Proof. unfold run. rewrite ExportRegKey_run. reflexivity. Qed.

(** The whole of [ImportRegKey], from a world [w]: the backup [c1], the
    check in the world [w1] that the backup leaves, the import [c2]. *)
Lemma ImportRegKey_from (reg : RegExportImport) (w : World) :
  run (ImportRegKey reg) w =
  let bak := backup_of reg (os_now w) in
  let c1 := reg_export_cmd (Key reg) (File bak) (Arch reg) in
  let c2 := reg_import_cmd (File reg) (Arch reg) in
  match os_spawn w c1 with
  | (StartError e as r, w1) =>
    (Exit 1,
     mkState w1
       [exec_log (export_options bak); EvStart c1 r;
        EvLog Fatal "Cannot export registry key '%s': %v" [Key reg; e]])
  | (Exited code1 out1 err1 as r1, w1) =>
    let tr1 :=
      ([exec_log (export_options bak); EvStart c1 r1] ++
       exit_report code1 (TrimSpace err1) ++
       [EvStat (File reg) (os_stat w1 (File reg))])%list in
    match os_stat w1 (File reg) with
    | Some _ => (Returned tt, mkState w1 tr1)
    | None =>
      match os_spawn w1 c2 with
      | (StartError e as r2, w2) =>
        (Exit 1,
         mkState w2 (tr1 ++
           [exec_log (import_options reg); EvStart c2 r2;
            EvLog Fatal "Cannot import registry file '%s': %v" [File reg; e]]))
      | (Exited code2 out2 err2 as r2, w2) =>
        (Returned tt,
         mkState w2 (tr1 ++
           [exec_log (import_options reg); EvStart c2 r2] ++
           exit_report code2 (TrimSpace err2)))
      end
    end
  end.
Proof.
  unfold run. rewrite ImportRegKey_run. cbn zeta. cbn [world].
  fold (run (ExportRegKey (backup_of reg (os_now w))) w).
  rewrite ExportRegKey_from. cbn zeta. cbn [Key File Arch backup_of].
  destruct (os_spawn w _) as [[e | code1 out1 err1] w1]; [reflexivity |].
  cbn [world trace].
  destruct (os_stat w1 (File reg)) as [e |].
  - rewrite <- !app_assoc. reflexivity.
  - destruct (os_spawn w1 _) as [[e | code2 out2 err2] w2];
      rewrite <- !app_assoc; reflexivity.
Qed.

End RunsFromEmpty.



(* ===================================================================== *)
(** ** The command runner *)
(* ===================================================================== *)

(** C3.  When the process of a command starts and terminates with a
    non-zero exit status, [ExecCmd] returns a result that carries this
    status in [ExitCode], together with the [nil] error. *)
Theorem ExecCmd_nonzero_exit_is_no_error :
  forall (World : Type) (os : OS World) (options : CmdOptions)
         (s : State World) (code : N) (out err : string) (w' : World),
    os_spawn (world s) (command_of options) = (Exited code out err, w') ->
    code <> 0 ->
    exists (result : CmdResult) (s' : State World),
      ExecCmd options s = (Returned (result, None), s') /\
      ExitCode result = code.
Proof.
  intros World os options s code out err w' Hspawn _.
  rewrite ExecCmd_run. cbn zeta. rewrite Hspawn.
  eexists. eexists. split; reflexivity.
Qed.

(** C4.  When the command cannot be started (no such executable, or the
    process cannot be created), [ExecCmd] returns the error of [Start]
    itself, and the result that comes with it holds nothing of a process:
    the options, exit code 0 and two empty outputs. *)
Theorem ExecCmd_start_error :
  forall (World : Type) (os : OS World) (options : CmdOptions)
         (s : State World) (e : error) (w' : World),
    os_spawn (world s) (command_of options) = (StartError e, w') ->
    exists (result : CmdResult) (s' : State World),
      ExecCmd options s = (Returned (result, Some e), s') /\
      result = mkCmdResult options 0 "" "".
Proof.
  intros World os options s e w' Hspawn.
  rewrite ExecCmd_run. cbn zeta. rewrite Hspawn.
  eexists. eexists. split; reflexivity.
Qed.

(* ===================================================================== *)
(** ** Registry export and import *)
(* ===================================================================== *)

(** C7.  [ExportRegKey] starts exactly one command, [reg], whose arguments
    are [export], the key, the file, [/y] and [/reg:] followed by the
    architecture, in this order. *)
Theorem ExportRegKey_command :
  forall (World : Type) (os : OS World) (reg : RegExportImport) (w : World),
    Args (export_options reg) =
      ["export"; Key reg; File reg; "/y"; "/reg:" ++ Arch reg] /\
    started (trace (snd (run (ExportRegKey reg) w))) =
      [mkCmd "reg" ["reg"; "export"; Key reg; File reg; "/y"; "/reg:" ++ Arch reg]
             "" true].
Proof.
  intros World os reg w. split; [reflexivity |].
  rewrite ExportRegKey_from. cbn zeta.
  destruct (os_spawn w _) as [[e | code out err] w']; cbn [snd trace].
  - reflexivity.
  - now rewrite started_app, started_exit_report.
Qed.

Example ExportRegKey_foo :
  started (trace (snd (run (ExportRegKey Sim.foo) SimRuns.w_nofile))) =
  [mkCmd "reg"
         ["reg"; "export"; "HKCU\Software\Foo"; "C:\backup\foo.reg"; "/y"; "/reg:64"]
         "" true] /\
  Sim.sim_files (world (snd (run (ExportRegKey Sim.foo) SimRuns.w_nofile))) =
  ["C:\backup\foo.reg"].
Proof. split; reflexivity. Qed.

(** C9.  Every command that [ExportRegKey] and [ImportRegKey] start has the
    hide-window flag set, whatever the key, architecture and file. *)
Theorem registry_commands_hide_window :
  forall (World : Type) (os : OS World) (reg : RegExportImport) (w : World),
    Forall (fun c => cmd_HideWindow c = true)
           (started (trace (snd (run (ExportRegKey reg) w)))) /\
    Forall (fun c => cmd_HideWindow c = true)
           (started (trace (snd (run (ImportRegKey reg) w)))) /\
    HideWindow (export_options reg) = true /\
    HideWindow (import_options reg) = true.
Proof.
  intros World os reg w. split; [| split; [| split; reflexivity]].
  - rewrite ExportRegKey_from. cbn zeta.
    destruct (os_spawn w _) as [[e | code out err] w']; cbn [snd trace].
    + repeat constructor.
    + rewrite started_app, started_exit_report. repeat constructor.
  - rewrite ImportRegKey_from. cbn zeta.
    destruct (os_spawn w _) as [[e | code1 out1 err1] w1]; cbn [snd trace].
    + repeat constructor.
    + destruct (os_stat w1 (File reg)) as [e |]; cbn [snd trace].
      * rewrite !started_app, started_exit_report. repeat constructor.
      * destruct (os_spawn w1 _) as [[e | code2 out2 err2] w2]; cbn [snd trace];
          rewrite !started_app, ?started_exit_report; repeat constructor.
Qed.


(** C5.  When the backup has run and [os.Stat] then fails on the file to
    import (it does not exist, or cannot be reached), [ImportRegKey]
    returns to its caller without starting [reg import]: the backup is the
    only command of the run. *)
Theorem ImportRegKey_skips_missing_file :
  forall (World : Type) (os : OS World) (reg : RegExportImport) (w : World)
         (code1 : N) (out1 err1 : string) (w1 : World) (e : error),
    os_spawn w (reg_export_cmd (Key reg)
                  (File (backup_of reg (os_now w))) (Arch reg))
      = (Exited code1 out1 err1, w1) ->
    os_stat w1 (File reg) = Some e ->
    exists s',
      run (ImportRegKey reg) w = (Returned tt, s') /\
      world s' = w1 /\
      started (trace s') =
        [reg_export_cmd (Key reg) (File (backup_of reg (os_now w))) (Arch reg)] /\
      ~ In (reg_import_cmd (File reg) (Arch reg)) (started (trace s')).
Proof.
  intros World os reg w code1 out1 err1 w1 e Hexp Hstat.
  rewrite ImportRegKey_from. cbn zeta. rewrite Hexp, Hstat.
  eexists. split; [reflexivity |]. split; [reflexivity |].
  cbn [trace]. rewrite !started_app, started_exit_report. cbn [started app].
  split; [reflexivity |].
  intros [Heq | []]. unfold reg_export_cmd, reg_import_cmd in Heq.
  discriminate Heq.
Qed.


Lemma ExecCmd_nonzero_exit_is_no_error_witness :
  exists (result : CmdResult) (s' : State Sim.SimWorld),
    ExecCmd SimRuns.ping (mkState SimRuns.w_soft []) = (Returned (result, None), s') /\
    ExitCode result = 1.
Proof.
  apply (ExecCmd_nonzero_exit_is_no_error Sim.SimWorld Sim.SimOS SimRuns.ping
           (mkState SimRuns.w_soft []) 1 "" "ERROR: Access is denied."
           SimRuns.w_soft1).
  - reflexivity.
  - discriminate.
Defined.

Lemma ExecCmd_start_error_witness :
  exists (result : CmdResult) (s' : State Sim.SimWorld),
    ExecCmd SimRuns.ping (mkState SimRuns.w_noreg []) =
      (Returned (result, Some "executable file not found in %PATH%"), s') /\
    result = mkCmdResult SimRuns.ping 0 "" "".
Proof.
  apply (ExecCmd_start_error Sim.SimWorld Sim.SimOS SimRuns.ping
           (mkState SimRuns.w_noreg []) _ SimRuns.w_noreg).
  reflexivity.
Defined.


Lemma ImportRegKey_skips_missing_file_witness :
  exists s',
    run (ImportRegKey Sim.foo) SimRuns.w_nofile = (Returned tt, s') /\
    world s' = SimRuns.w_nofile1 /\
    started (trace s') =
      [reg_export_cmd "HKCU\Software\Foo" "C:\backup\foo.reg.20261031070405" "64"] /\
    ~ In (reg_import_cmd "C:\backup\foo.reg" "64") (started (trace s')).
Proof.
  apply (ImportRegKey_skips_missing_file Sim.SimWorld Sim.SimOS Sim.foo
           SimRuns.w_nofile 0 "" "" SimRuns.w_nofile1
           "The system cannot find the file specified.").
  - reflexivity.
  - reflexivity.
Defined.

(* ===================================================================== *)
(** ** [PathJoin] *)
(* ===================================================================== *)


(** [Join] writes the first element, then a separator before each of the
    others, empty or not. *)
Lemma Join_cons (e : string) (rest : list string) (sep : string) :
  Join (e :: rest) sep = e ++ String.concat "" (map (fun s => sep ++ s) rest).
Proof.
  unfold Join. revert e.
  induction rest as [|x rest IH]; intros e; cbn [fold_left map].
  - now rewrite append_empty_r.
  - rewrite IH.
    assert (Hc : forall l, String.concat "" ((sep ++ x) :: l)
                           = (sep ++ x) ++ String.concat "" l).
    { intros [|y l]; cbn [String.concat]; [now rewrite append_empty_r |].
      reflexivity. }
    rewrite Hc, !append_assoc. reflexivity.
Qed.

Lemma PathJoin_loop_skip (elem rest : list string) (i : nat) :
  skipn i elem = rest ->
  PathJoin_loop elem i rest = Join (skip_empty rest) "\".
Proof.
  revert i. induction rest as [|e rest IH]; intros i Hskip; cbn.
  - reflexivity.
  - destruct (e =? "")%string eqn:He; cbn [negb].
    + apply IH.
      assert (Hs : skipn 1 (skipn i elem) = rest) by now rewrite Hskip.
      rewrite skipn_skipn in Hs. exact Hs.
    + now rewrite Hskip.
Qed.

(** C10.  [PathJoin] drops the empty strings that lead its arguments and
    joins what follows, from the first non-empty element on: that element,
    then a backslash before each later element, the empty ones included;
    when every argument is empty, or there is none, the result is the empty
    string. *)
Theorem PathJoin_skips_leading_empty :
  forall (elem : list string),
    PathJoin elem =
      match skip_empty elem with
      | [] => ""
      | e :: rest => e ++ String.concat "" (map (fun s => "\" ++ s) rest)
      end /\
    (forall (n : nat) (rest : list string),
        PathJoin (repeat "" n ++ rest) = PathJoin rest) /\
    (forall (n : nat), PathJoin (repeat "" n) = "") /\
    (forall (a b : string),
        a <> "" -> PathJoin [a; ""; b] = a ++ "\" ++ "\" ++ b).
Proof.
  assert (Hjoin : forall elem, PathJoin elem = Join (skip_empty elem) "\").
  { intros elem. unfold PathJoin. now apply PathJoin_loop_skip. }
  assert (Hrep : forall n rest, skip_empty (repeat "" n ++ rest) = skip_empty rest).
  { induction n as [|n IH]; intros rest; [reflexivity | apply IH]. }
  intros elem. repeat split.
  - rewrite Hjoin. destruct (skip_empty elem) as [|e rest]; [reflexivity |].
    apply Join_cons.
  - intros n rest. now rewrite !Hjoin, Hrep.
  - intros n. rewrite Hjoin.
    rewrite <- (app_nil_r (repeat "" n)), Hrep. reflexivity.
  - intros a b Ha. rewrite Hjoin. cbn [skip_empty].
    apply String.eqb_neq in Ha. rewrite Ha. cbn.
    now rewrite !append_assoc.
Qed.

Lemma PathJoin_skips_leading_empty_witness :
  PathJoin ["C:"; ""; "data"] = "C:" ++ "\" ++ "\" ++ "data".
Proof.
  apply (proj2 (proj2 (proj2 (PathJoin_skips_leading_empty []))) "C:" "data").
  discriminate.
Defined.

Example PathJoin_examples :
  PathJoin [""; ""; "C:"; "apps"; ""; "data"] = "C:\apps\\data" /\
  PathJoin [""; ""] = "" /\
  PathJoin [] = "" /\
  PathJoin ["C:\apps"; "foo.log"] = "C:\apps\foo.log".
Proof. repeat split. Qed.

(* ===================================================================== *)
(** ** [TrimSpace] *)
(* ===================================================================== *)

Lemma infix_refl (s : string) : infix s s.
Proof. exists "", "". cbn. now rewrite append_empty_r. Qed.

Lemma infix_empty (s : string) : infix "" s.
Proof. exists "", s. reflexivity. Qed.

Lemma infix_trans (a b c : string) : infix a b -> infix b c -> infix a c.
Proof.
  intros (p1 & q1 & ->) (p2 & q2 & ->).
  exists (p2 ++ p1), (q1 ++ q2). now rewrite !append_assoc.
Qed.

Lemma infix_String (a : ascii) (t s : string) : infix t s -> infix t (String a s).
Proof. intros (p & q & ->). now exists (String a p), q. Qed.

Lemma substring_0_prefix (s : string) :
  forall m, exists q : string, s = substring 0 m s ++ q.
Proof.
  induction s as [|c s IH]; intros [|m]; cbn.
  - now exists "".
  - now exists "".
  - now exists (String c s).
  - destruct (IH m) as [q Hq]. exists q. now rewrite <- Hq.
Qed.

Lemma substring_infix (s : string) : forall n m, infix (substring n m s) s.
Proof.
  induction s as [|c s IH]; intros [|n] m.
  - destruct (substring_0_prefix "" m) as [q Hq]. now exists "", q.
  - cbn. apply infix_refl.
  - destruct (substring_0_prefix (String c s) m) as [q Hq]. now exists "", q.
  - cbn. apply infix_String, IH.
Qed.

Lemma slice_infix (s : string) (lo hi : nat) : infix (slice s lo hi) s.
Proof. apply substring_infix. Qed.

Lemma TrimLeftFunc_infix (f : N -> bool) (s : string) : infix (TrimLeftFunc f s) s.
Proof.
  unfold TrimLeftFunc. destruct (indexFunc f s false);
    [apply slice_infix | apply infix_empty].
Qed.

Lemma TrimRightFunc_infix (f : N -> bool) (s : string) : infix (TrimRightFunc f s) s.
Proof.
  unfold TrimRightFunc. destruct (lastIndexFunc f s false) as [i |];
    [| apply slice_infix].
  destruct (RuneSelf <=? byte s i); [| apply slice_infix].
  destruct (DecodeRuneInString _). apply slice_infix.
Qed.

Lemma TrimSpace_stop_infix (s : string) (stop : nat) :
  infix (TrimSpace_stop s stop) s.
Proof.
  induction stop as [|k IH]; cbn [TrimSpace_stop]; [apply slice_infix |].
  destruct (RuneSelf <=? byte s k).
  - eapply infix_trans; [apply TrimRightFunc_infix | apply slice_infix].
  - destruct (asciiSpace (byte s k)); [exact IH | apply slice_infix].
Qed.

(** What [TrimSpace] returns is a piece of its argument. *)
Lemma TrimSpace_infix (s : string) : infix (TrimSpace s) s.
Proof.
  induction s as [|a t IH]; cbn [TrimSpace]; [apply infix_refl |].
  destruct (RuneSelf <=? N_of_ascii a).
  - unfold TrimFunc.
    eapply infix_trans; [apply TrimRightFunc_infix | apply TrimLeftFunc_infix].
  - destruct (asciiSpace (N_of_ascii a)).
    + now apply infix_String.
    + apply TrimSpace_stop_infix.
Qed.

(** On ASCII text. *)

Lemma substring_0_length (s : string) : substring 0 (String.length s) s = s.
Proof. induction s as [|c s IH]; cbn; [reflexivity | now rewrite IH]. Qed.

Lemma substring_0_S (s : string) :
  forall k c, get k s = Some c ->
              substring 0 (S k) s = substring 0 k s ++ String c "".
Proof.
  induction s as [|d s IH]; intros [|k] c Hget; cbn in *; try discriminate.
  - injection Hget as ->. now destruct s.
  - now rewrite (IH k c Hget).
Qed.

Lemma all_ascii_get (s : string) :
  all_ascii s = true ->
  forall k c, get k s = Some c -> (N_of_ascii c <? RuneSelf) = true.
Proof.
  induction s as [|d s IH]; intros Hs [|k] c Hget; cbn in *; try discriminate;
    apply andb_prop in Hs; destruct Hs as [Hd Hs].
  - now injection Hget as <-.
  - now apply (IH Hs k).
Qed.

Lemma get_lt (s : string) :
  forall k, (k < String.length s)%nat -> exists c, get k s = Some c.
Proof.
  induction s as [|d s IH]; intros [|k] Hk; cbn in *; try lia.
  - now exists d.
  - apply IH. lia.
Qed.

Lemma trim_right_snoc (x : string) (c : ascii) :
  trim_right (x ++ String c "") =
  if asciiSpace (N_of_ascii c) then trim_right x else x ++ String c "".
Proof.
  induction x as [|d x IH]; cbn [append trim_right].
  - now destruct (asciiSpace (N_of_ascii c)).
  - rewrite IH. destruct (asciiSpace (N_of_ascii c)); [reflexivity |].
    now destruct x.
Qed.

Lemma TrimSpace_stop_ascii (s : string) :
  all_ascii s = true ->
  forall stop, (stop <= String.length s)%nat ->
               TrimSpace_stop s stop = trim_right (substring 0 stop s).
Proof.
  intros Hs. induction stop as [|k IH]; intros Hk; cbn [TrimSpace_stop].
  - unfold slice. now destruct s.
  - destruct (get_lt s k Hk) as [c Hc].
    assert (Hb : byte s k = N_of_ascii c) by (unfold byte; now rewrite Hc).
    rewrite Hb. pose proof (all_ascii_get s Hs k c Hc) as Hlt.
    assert (Hle : (RuneSelf <=? N_of_ascii c) = false).
    { apply N.leb_gt. now apply N.ltb_lt. }
    rewrite Hle, (substring_0_S s k c Hc), trim_right_snoc.
    destruct (asciiSpace (N_of_ascii c)).
    + apply IH. lia.
    + unfold slice. rewrite Nat.sub_0_r. apply (substring_0_S s k c Hc).
Qed.

(** On a string of ASCII bytes [TrimSpace] removes the white space at both
    ends, and nothing else. *)
Lemma TrimSpace_ascii (s : string) :
  all_ascii s = true -> TrimSpace s = trim_ascii s.
Proof.
  unfold trim_ascii.
  induction s as [|a t IH]; intros Hs; cbn [TrimSpace trim_left]; [reflexivity |].
  cbn [all_ascii] in Hs. apply andb_prop in Hs as Hs'. destruct Hs' as [Ha Ht].
  assert (Hle : (RuneSelf <=? N_of_ascii a) = false).
  { apply N.leb_gt. now apply N.ltb_lt. }
  rewrite Hle. destruct (asciiSpace (N_of_ascii a)); [now apply IH |].
  rewrite TrimSpace_stop_ascii; [| exact Hs | lia].
  now rewrite substring_0_length.
Qed.

(* ===================================================================== *)
(** ** The time stamp of the backup *)
(* ===================================================================== *)

Lemma numeralb_numeral (w : nat) (x : Z) :
  numeralb w x = true -> numeral w x (appendInt x w).
Proof.
  unfold numeralb, numeral. intros H.
  apply andb_prop in H as [H Hx]. apply andb_prop in H as [Hl Hv].
  split; [now apply Nat.eqb_eq |]. split; [| now apply Z.leb_le].
  destruct (decimal_value (appendInt x w)) as [v |]; [| discriminate].
  apply N.eqb_eq in Hv. now subst.
Qed.

Lemma numeralb_below (w : nat) (bound : Z) :
  forallb (fun n => numeralb w (Z.of_nat n)) (seq 0 (Z.to_nat bound)) = true ->
  forall x : Z, (0 <= x < bound)%Z -> numeral w x (appendInt x w).
Proof.
  intros Hall x Hx. apply numeralb_numeral.
  rewrite forallb_forall in Hall.
  rewrite <- (Z2Nat.id x) by lia. apply Hall, in_seq. lia.
Qed.

Lemma years_numerals :
  forallb (fun n => numeralb 4 (Z.of_nat n)) (seq 0 (Z.to_nat 10000)) = true.
Proof. vm_compute. reflexivity. Qed.

Lemma fields_numerals :
  forallb (fun n => numeralb 2 (Z.of_nat n)) (seq 0 (Z.to_nat 100)) = true.
Proof. vm_compute. reflexivity. Qed.

(** A year of at most four digits is written with four digits, and a
    month, day, hour, minute or second with two. *)
Lemma appendInt_4 (x : Z) : (0 <= x <= 9999)%Z -> numeral 4 x (appendInt x 4).
Proof. intros Hx. apply (numeralb_below 4 10000 years_numerals). lia. Qed.

Lemma appendInt_2 (x : Z) : (0 <= x <= 99)%Z -> numeral 2 x (appendInt x 2).
Proof. intros Hx. apply (numeralb_below 2 100 fields_numerals). lia. Qed.

Lemma numeral_inj (w : nat) (x y : Z) (s : string) :
  numeral w x s -> numeral w y s -> x = y.
Proof.
  intros (_ & Hx & Hx0) (_ & Hy & Hy0). rewrite Hx in Hy.
  injection Hy as Hy. apply Z2N.inj; assumption.
Qed.

(** The shape of the stamp for a civil reading of the clock. *)
Lemma Format_shape (t : Time) :
  civil t ->
  numeral 4 (year t) (appendInt (year t) 4) /\
  numeral 2 (month t) (appendInt (month t) 2) /\
  numeral 2 (day t) (appendInt (day t) 2) /\
  numeral 2 (hour t) (appendInt (hour t) 2) /\
  numeral 2 (minute t) (appendInt (minute t) 2) /\
  numeral 2 (second t) (appendInt (second t) 2).
Proof.
  unfold civil. intros H.
  repeat split; try (apply appendInt_4; lia); try (apply appendInt_2; lia);
    try (apply appendInt_4); try (apply appendInt_2); lia.
Qed.

Lemma Format_length (t : Time) :
  civil t -> String.length (Format_20060102150405 t) = 14%nat.
Proof.
  intros Ht. destruct (Format_shape t Ht)
    as ((Ly & _) & (Lm & _) & (Ld & _) & (Lh & _) & (Li & _) & (Ls & _)).
  unfold Format_20060102150405.
  rewrite !length_append, Ly, Lm, Ld, Lh, Li, Ls. reflexivity.
Qed.

(** Two civil readings have the same stamp exactly when they fall in the
    same second. *)
Lemma Format_same_second (a b : Time) :
  civil a -> civil b ->
  (Format_20060102150405 a = Format_20060102150405 b <-> same_second a b).
Proof.
  intros Ha Hb. split.
  - intros Heq.
    destruct (Format_shape a Ha) as (Ya & Ma & Da & Ha' & Ia & Sa).
    destruct (Format_shape b Hb) as (Yb & Mb & Db & Hb' & Ib & Sb).
    unfold Format_20060102150405 in Heq.
    apply append_inj_length in Heq as [Ey Heq];
      [| now rewrite (proj1 Ya), (proj1 Yb)].
    apply append_inj_length in Heq as [Em Heq];
      [| now rewrite (proj1 Ma), (proj1 Mb)].
    apply append_inj_length in Heq as [Ed Heq];
      [| now rewrite (proj1 Da), (proj1 Db)].
    apply append_inj_length in Heq as [Eh Heq];
      [| now rewrite (proj1 Ha'), (proj1 Hb')].
    apply append_inj_length in Heq as [Ei Es];
      [| now rewrite (proj1 Ia), (proj1 Ib)].
    rewrite Ey in Ya. rewrite Em in Ma. rewrite Ed in Da.
    rewrite Eh in Ha'. rewrite Ei in Ia. rewrite Es in Sa.
    unfold same_second. repeat split; eapply numeral_inj; eassumption.
  - intros (Ey & Em & Ed & Eh & Ei & Es). unfold Format_20060102150405.
    now rewrite Ey, Em, Ed, Eh, Ei, Es.
Qed.

(* ===================================================================== *)
(** ** [TrimSpace] on any text *)
(* ===================================================================== *)

(** *** Pieces of strings *)

Lemma length_substring (s : string) :
  forall n m, String.length (substring n m s) = Nat.min m (String.length s - n).
Proof.
  induction s as [|c s IH]; intros [|n] [|m]; cbn; try reflexivity.
  - now rewrite IH, Nat.sub_0_r.
  - now rewrite IH.
  - now rewrite IH.
Qed.

Lemma length_take (j : nat) (s : string) :
  String.length (take j s) = Nat.min j (String.length s).
Proof. unfold take, slice. rewrite length_substring. lia. Qed.

Lemma length_drop (i : nat) (s : string) :
  String.length (drop i s) = (String.length s - i)%nat.
Proof. unfold drop, slice. rewrite length_substring. lia. Qed.

Lemma substring_empty (n m : nat) : substring n m "" = "".
Proof. now destruct n, m. Qed.

Lemma substring_split (s : string) :
  forall n a b, substring n (a + b) s = substring n a s ++ substring (n + a) b s.
Proof.
  induction s as [|c s IH]; intros n a b.
  - now rewrite !substring_empty.
  - destruct n as [|n].
    + destruct a as [|a]; cbn [Nat.add].
      * now destruct b.
      * cbn [substring append]. f_equal. apply (IH 0%nat).
    + cbn [substring Nat.add]. apply IH.
Qed.

Lemma substring_all (s : string) :
  forall m, (String.length s <= m)%nat -> substring 0 m s = s.
Proof.
  induction s as [|c s IH]; intros [|m] Hm; cbn in *; try reflexivity; try lia.
  f_equal. apply IH. lia.
Qed.

Lemma substring_none (s : string) :
  forall n m, (String.length s <= n)%nat -> substring n m s = "".
Proof.
  induction s as [|c s IH]; intros [|n] m Hn; cbn in *; try lia.
  - now destruct m.
  - reflexivity.
  - apply IH. lia.
Qed.

(** [s[i:k]] is [s[i:j]] followed by [s[j:k]]. *)
Lemma slice_split (s : string) (i j k : nat) :
  (i <= j)%nat -> (j <= k)%nat -> slice s i k = slice s i j ++ slice s j k.
Proof.
  intros Hij Hjk. unfold slice.
  replace (k - i)%nat with ((j - i) + (k - j))%nat by lia.
  rewrite substring_split. do 2 f_equal. lia.
Qed.

Lemma take_drop (j : nat) (s : string) : s = take j s ++ drop j s.
Proof.
  unfold take, drop. destruct (Nat.le_gt_cases j (String.length s)) as [Hj | Hj].
  - rewrite <- slice_split by lia. unfold slice.
    rewrite Nat.sub_0_r. symmetry. now apply substring_all.
  - unfold slice. rewrite Nat.sub_0_r, (substring_all s j) by lia.
    rewrite (substring_none s j) by lia. now rewrite append_empty_r.
Qed.

Lemma get_byte (s : string) (k : nat) (c : ascii) :
  get k s = Some c -> byte s k = N_of_ascii c.
Proof. unfold byte. now intros ->. Qed.

Lemma byte_beyond (s : string) (k : nat) :
  (String.length s <= k)%nat -> byte s k = 0.
Proof.
  unfold byte. revert k. induction s as [|c s IH]; intros [|k] Hk; cbn in *;
    try reflexivity; try lia.
  apply IH. lia.
Qed.

Lemma byte_append_l (a b : string) (k : nat) :
  (k < String.length a)%nat -> byte (a ++ b) k = byte a k.
Proof.
  unfold byte. revert k. induction a as [|c a IH]; intros [|k] Hk; cbn in *;
    try lia; try reflexivity.
  apply IH. lia.
Qed.

Lemma byte_append_r (a b : string) (k : nat) :
  byte (a ++ b) (String.length a + k) = byte b k.
Proof. unfold byte. induction a as [|c a IH]; cbn; [reflexivity | exact IH]. Qed.

Lemma byte_substring (s : string) :
  forall n m k, (k < m)%nat -> byte (substring n m s) k = byte s (n + k).
Proof.
  intros n m k Hk. unfold byte.
  rewrite (substring_correct1 s n m k Hk). now rewrite Nat.add_comm.
Qed.

Lemma byte_lt_256 (s : string) (k : nat) : byte s k < 256.
Proof.
  unfold byte. destruct (get k s); [apply N_ascii_bounded | reflexivity].
Qed.

(** *** The decoder *)

(** The first byte is an ASCII byte, a byte that starts no character, or
    the first of two to four bytes. *)
Lemma first_cases (b : N) :
  (b < 128 /\ first b = t_as) \/
  (128 <= b /\ (b < 194 \/ 245 <= b) /\ first b = t_xx) \/
  (194 <= b <= 244 /\ first b < t_as /\
   (2 <= lead_size b <= 4)%nat /\ 128 <= lead_lo b /\ lead_hi b <= 191).
Proof.
  unfold lead_size, lead_lo, lead_hi, first, t_as, t_xx.
  split_ifs; to_prop;
    first [ left; split; [lia | reflexivity]
          | right; left; split; [lia | split; [lia | reflexivity]]
          | right; right; cbn; repeat split; lia ].
Qed.

(** [DecodeRuneInString], with the part past the first byte set apart. *)
Lemma DecodeRune_unfold (s : string) :
  DecodeRuneInString s =
  if (String.length s <? 1)%nat then (RuneError, 0%nat)
  else if t_as <=? first (byte s 0)
       then ((if first (byte s 0) =? t_xx then RuneError else byte s 0), 1%nat)
       else decode_multi (lead_size (byte s 0)) (lead_lo (byte s 0))
                         (lead_hi (byte s 0)) (String.length s)
                         (byte s 0) (byte s 1) (byte s 2) (byte s 3).
Proof. reflexivity. Qed.

Lemma decode_multi_size (sz : nat) (lo hi : N) (n : nat) (s0 s1 s2 s3 : N) :
  (2 <= sz <= 4)%nat -> (1 <= n)%nat ->
  (snd (decode_multi sz lo hi n s0 s1 s2 s3) = 1%nat \/
   snd (decode_multi sz lo hi n s0 s1 s2 s3) = sz /\ (sz <= n)%nat).
Proof.
  intros Hsz Hn. unfold decode_multi. split_ifs; to_prop; cbn [snd]; lia.
Qed.

(** A character of two bytes or more is read from its own bytes alone. *)
Lemma decode_multi_local (sz : nat) (lo hi : N) (n n' : nat)
      (s0 s1 s2 s3 t1 t2 t3 r : N) (size : nat) :
  (2 <= sz <= 4)%nat ->
  decode_multi sz lo hi n s0 s1 s2 s3 = (r, size) ->
  (2 <= size)%nat ->
  (size <= n')%nat ->
  t1 = s1 -> ((3 <= size)%nat -> t2 = s2) -> ((4 <= size)%nat -> t3 = s3) ->
  size = sz /\ decode_multi sz lo hi n' s0 t1 t2 t3 = (r, size).
Proof.
  intros Hsz Hd Hsize Hn' -> H2 H3. unfold decode_multi in *.
  destruct (n <? sz)%nat eqn:E0; [injection Hd as _ <-; lia |].
  destruct ((s1 <? lo) || (hi <? s1)) eqn:E1; [injection Hd as _ <-; lia |].
  apply Nat.ltb_ge in E0.
  destruct (sz <=? 2)%nat eqn:E2.
  { injection Hd as <- <-. apply Nat.leb_le in E2.
    assert (sz = 2%nat) by lia. subst sz.
    split; [reflexivity |].
    destruct (n' <? 2)%nat eqn:E3; [apply Nat.ltb_lt in E3; lia | reflexivity]. }
  destruct ((s2 <? locb) || (hicb <? s2)) eqn:E3; [injection Hd as _ <-; lia |].
  apply Nat.leb_gt in E2.
  destruct (sz <=? 3)%nat eqn:E4.
  { injection Hd as <- <-. apply Nat.leb_le in E4.
    assert (sz = 3%nat) by lia. subst sz.
    split; [reflexivity |]. rewrite (H2 (le_n 3)), E3.
    destruct (n' <? 3)%nat eqn:E5; [apply Nat.ltb_lt in E5; lia | reflexivity]. }
  destruct ((s3 <? locb) || (hicb <? s3)) eqn:E5; [injection Hd as _ <-; lia |].
  apply Nat.leb_gt in E4.
  injection Hd as <- <-. assert (sz = 4%nat) by lia. subst sz.
  split; [reflexivity |].
  rewrite (H2 ltac:(lia)), (H3 (le_n 4)), E3, E5.
  destruct (n' <? 4)%nat eqn:E6; [apply Nat.ltb_lt in E6; lia | reflexivity].
Qed.

(** Of fewer bytes the decoder reads the same character, or none. *)
Lemma decode_multi_prefix (sz : nat) (lo hi : N) (n n' : nat)
      (s0 s1 s2 s3 t1 t2 t3 : N) :
  (2 <= sz <= 4)%nat ->
  (n' <= n)%nat ->
  ((2 <= n')%nat -> t1 = s1) -> ((3 <= n')%nat -> t2 = s2) ->
  ((4 <= n')%nat -> t3 = s3) ->
  fst (decode_multi sz lo hi n' s0 t1 t2 t3) =
    fst (decode_multi sz lo hi n s0 s1 s2 s3) \/
  fst (decode_multi sz lo hi n' s0 t1 t2 t3) = RuneError.
Proof.
  intros Hsz Hn H1 H2 H3. unfold decode_multi at 1 3.
  destruct (n' <? sz)%nat eqn:E0; [now right |]. to_prop.
  rewrite (H1 ltac:(lia)).
  assert (sz = 2 \/ sz = 3 \/ sz = 4)%nat as [-> | [-> | ->]] by lia.
  - left. unfold decode_multi.
    destruct (n <? 2)%nat eqn:E1; [to_prop; lia | reflexivity].
  - rewrite (H2 ltac:(lia)). left. unfold decode_multi.
    destruct (n <? 3)%nat eqn:E1; [to_prop; lia | reflexivity].
  - rewrite (H2 ltac:(lia)), (H3 ltac:(lia)). left. unfold decode_multi.
    destruct (n <? 4)%nat eqn:E1; [to_prop; lia | reflexivity].
Qed.

(** A first byte with no second byte, or with a second byte that continues
    no character, is read alone. *)
Lemma decode_multi_alone (sz : nat) (lo hi : N) (n : nat) (s0 s1 s2 s3 : N) :
  (2 <= sz)%nat -> 128 <= lo -> hi <= 191 ->
  (n = 1%nat \/ s1 < 128 \/ 191 < s1) ->
  snd (decode_multi sz lo hi n s0 s1 s2 s3) = 1%nat.
Proof.
  intros Hsz Hlo Hhi H. unfold decode_multi.
  destruct (n <? sz)%nat eqn:E0; [reflexivity |].
  destruct ((s1 <? lo) || (hi <? s1)) eqn:E1; [reflexivity |].
  to_prop. lia.
Qed.

Lemma decode_multi_space (sz : nat) (lo hi : N) (n : nat) (s0 s1 s2 s3 : N) :
  IsSpace (fst (decode_multi sz lo hi n s0 s1 s2 s3)) = true ->
  (2 <= snd (decode_multi sz lo hi n s0 s1 s2 s3))%nat.
Proof.
  unfold decode_multi. split_ifs; cbn [fst snd]; intros H;
    try discriminate H; lia.
Qed.

(** The three kinds of first byte, and what the decoder does with each. *)
Lemma DecodeRune_cases (s : string) :
  (1 <= String.length s)%nat ->
  (byte s 0 < 128 /\ DecodeRuneInString s = (byte s 0, 1%nat)) \/
  (128 <= byte s 0 /\ (byte s 0 < 194 \/ 245 <= byte s 0) /\
   DecodeRuneInString s = (RuneError, 1%nat)) \/
  (194 <= byte s 0 <= 244 /\
   (2 <= lead_size (byte s 0) <= 4)%nat /\
   128 <= lead_lo (byte s 0) /\ lead_hi (byte s 0) <= 191 /\
   DecodeRuneInString s =
     decode_multi (lead_size (byte s 0)) (lead_lo (byte s 0))
                  (lead_hi (byte s 0)) (String.length s)
                  (byte s 0) (byte s 1) (byte s 2) (byte s 3)).
Proof.
  intros Hn. rewrite DecodeRune_unfold.
  destruct (String.length s <? 1)%nat eqn:E; [apply Nat.ltb_lt in E; lia |].
  destruct (first_cases (byte s 0)) as [[Hb Hf] | [[Hb [Hb' Hf]] | [Hb [Hf H]]]].
  - left. rewrite Hf. split; [exact Hb | reflexivity].
  - right; left. rewrite Hf. repeat split; assumption.
  - right; right. apply N.leb_gt in Hf. rewrite Hf.
    destruct H as [H1 [H2 H3]]. repeat split; try assumption; lia.
Qed.

Lemma DecodeRune_empty : DecodeRuneInString "" = (RuneError, 0%nat).
Proof. reflexivity. Qed.

Lemma IsSpace_RuneError : IsSpace RuneError = false.
Proof. reflexivity. Qed.

Lemma IsSpace_ascii (c : N) : c < 128 -> IsSpace c = asciiSpace c.
Proof.
  intros Hc. unfold IsSpace, asciiSpace.
  assert ((c <=? 255) = true) as -> by (apply N.leb_le; lia).
  assert ((c =? 133) = false) as -> by (apply N.eqb_neq; lia).
  assert ((c =? 160) = false) as -> by (apply N.eqb_neq; lia).
  now rewrite !orb_false_r.
Qed.

(** A character takes at least one byte, and no more than there are. *)
Lemma DecodeRune_size (s : string) :
  (1 <= String.length s)%nat ->
  (1 <= snd (DecodeRuneInString s) <= String.length s)%nat.
Proof.
  intros Hn.
  destruct (DecodeRune_cases s Hn) as [[_ ->] | [[_ [_ ->]] | [_ [Hsz [_ [_ ->]]]]]];
    cbn [snd]; try lia.
  destruct (decode_multi_size (lead_size (byte s 0)) (lead_lo (byte s 0))
              (lead_hi (byte s 0)) (String.length s)
              (byte s 0) (byte s 1) (byte s 2) (byte s 3) Hsz Hn) as [-> | [-> ?]];
    lia.
Qed.

(** An ASCII byte is a character of its own. *)
Lemma DecodeRune_ascii (s : string) :
  (1 <= String.length s)%nat -> byte s 0 < 128 ->
  DecodeRuneInString s = (byte s 0, 1%nat).
Proof.
  intros Hn Hb.
  destruct (DecodeRune_cases s Hn) as [[_ H] | [[? _] | [[? _] _]]];
    [exact H | lia | lia].
Qed.

(** A white space character, or one of two bytes or more, starts with a
    byte that starts a character. *)
Lemma DecodeRune_start (s : string) (r : N) (size : nat) :
  DecodeRuneInString s = (r, size) ->
  (2 <= size)%nat \/ IsSpace r = true ->
  (1 <= String.length s)%nat /\ (byte s 0 < 128 \/ 194 <= byte s 0).
Proof.
  intros Hd Hr.
  assert (1 <= String.length s)%nat as Hn.
  { destruct s; [| cbn; lia]. rewrite DecodeRune_empty in Hd.
    injection Hd as <- <-. destruct Hr as [Hr | Hr]; [lia | discriminate Hr]. }
  split; [exact Hn |].
  destruct (DecodeRune_cases s Hn) as [[? _] | [[_ [_ H]] | [[? _] _]]];
    [left; assumption | | right; lia].
  rewrite H in Hd. injection Hd as <- <-.
  destruct Hr as [Hr | Hr]; [lia | discriminate Hr].
Qed.

Lemma DecodeRune_wide (s : string) (r : N) (size : nat) :
  DecodeRuneInString s = (r, size) -> (2 <= size)%nat -> 194 <= byte s 0.
Proof.
  intros Hd Hsize.
  destruct (DecodeRune_start s r size Hd (or_introl Hsize)) as [Hn _].
  destruct (DecodeRune_cases s Hn) as [[_ H] | [[_ [_ H]] | [[? _] _]]];
    [| | lia]; rewrite H in Hd; injection Hd as _ <-; lia.
Qed.

(** A white space character, or one of two bytes or more, is read from its
    own bytes alone: any text with the same first bytes starts with it. *)
Lemma DecodeRune_local (s c : string) (r : N) (size : nat) :
  DecodeRuneInString s = (r, size) ->
  (2 <= size)%nat \/ IsSpace r = true ->
  (size <= String.length c)%nat ->
  (forall k, (k < size)%nat -> byte c k = byte s k) ->
  DecodeRuneInString c = (r, size).
Proof.
  intros Hd Hr Hc Hb.
  destruct (DecodeRune_start s r size Hd Hr) as [Hn _].
  pose proof (DecodeRune_size s Hn) as Hsize. rewrite Hd in Hsize.
  cbn [snd] in Hsize.
  assert (1 <= String.length c)%nat as Hnc by lia.
  assert (byte c 0 = byte s 0) as H0 by (apply Hb; lia).
  destruct (DecodeRune_cases s Hn)
    as [[Hs0 H] | [[_ [_ H]] | [Hs0 [Hsz [_ [_ H]]]]]].
  - rewrite H in Hd. injection Hd as <- <-.
    rewrite DecodeRune_ascii by (try rewrite H0; assumption).
    now rewrite H0.
  - rewrite H in Hd. injection Hd as <- <-.
    destruct Hr as [Hr | Hr]; [lia | discriminate Hr].
  - rewrite H in Hd.
    assert (2 <= size)%nat as H2.
    { destruct Hr as [Hr | Hr]; [exact Hr |].
      pose proof (decode_multi_space (lead_size (byte s 0)) (lead_lo (byte s 0))
                    (lead_hi (byte s 0)) (String.length s)
                    (byte s 0) (byte s 1) (byte s 2) (byte s 3)) as Hsp.
      rewrite Hd in Hsp. cbn [fst snd] in Hsp. now apply Hsp. }
    destruct (DecodeRune_cases c Hnc)
      as [[Hc0 _] | [[_ [Hc0 _]] | [_ [_ [_ [_ Hcd]]]]]];
      [rewrite H0 in Hc0; lia | rewrite H0 in Hc0; lia |].
    rewrite Hcd, H0.
    apply (decode_multi_local _ _ _ (String.length s) (String.length c)
             (byte s 0) (byte s 1) (byte s 2) (byte s 3));
      try assumption.
    + apply Hb; lia.
    + intros ?; apply Hb; lia.
    + intros ?; apply Hb; lia.
Qed.

(** The first character of the beginning of a text is the first character
    of the text, or none. *)
Lemma DecodeRune_prefix (a b : string) :
  fst (DecodeRuneInString a) = fst (DecodeRuneInString (a ++ b)) \/
  fst (DecodeRuneInString a) = RuneError.
Proof.
  destruct (Nat.le_gt_cases 1 (String.length a)) as [Hn | Hn].
  2: { right. destruct a; [reflexivity | cbn in Hn; lia]. }
  assert (1 <= String.length (a ++ b))%nat as Hn'
    by (rewrite length_append; lia).
  assert (byte (a ++ b) 0 = byte a 0) as H0 by (apply byte_append_l; lia).
  destruct (DecodeRune_cases a Hn)
    as [[Ha0 H] | [[_ [_ H]] | [Ha0 [Hsz [_ [_ H]]]]]].
  - left. rewrite H, DecodeRune_ascii by (try rewrite H0; assumption).
    now rewrite H0.
  - right. now rewrite H.
  - destruct (DecodeRune_cases (a ++ b) Hn')
      as [[Hc0 _] | [[_ [Hc0 _]] | [_ [_ [_ [_ Hcd]]]]]];
      [rewrite H0 in Hc0; lia | rewrite H0 in Hc0; lia |].
    rewrite H, Hcd, H0.
    apply decode_multi_prefix; try assumption.
    + rewrite length_append; lia.
    + intros ?. symmetry. apply byte_append_l; lia.
    + intros ?. symmetry. apply byte_append_l; lia.
    + intros ?. symmetry. apply byte_append_l; lia.
Qed.

(** A byte that is not ASCII, followed by nothing or by a byte that
    continues no character, is read alone. *)
Lemma DecodeRune_alone (s : string) :
  (1 <= String.length s)%nat -> 128 <= byte s 0 ->
  (String.length s = 1%nat \/ byte s 1 < 128 \/ 191 < byte s 1) ->
  snd (DecodeRuneInString s) = 1%nat.
Proof.
  intros Hn H0 H1.
  destruct (DecodeRune_cases s Hn)
    as [[Hs0 _] | [[_ [_ H]] | [_ [Hsz [Hlo [Hhi H]]]]]];
    [lia | now rewrite H |].
  rewrite H. apply decode_multi_alone; try assumption; lia.
Qed.

(** *** Runs of white space *)

Lemma SpaceRunes_app (a b : string) :
  SpaceRunes a -> SpaceRunes b -> SpaceRunes (a ++ b).
Proof.
  intros Ha Hb. induction Ha as [| c rest r Hd Hr _ IH]; [exact Hb |].
  rewrite append_assoc. now apply (SpaceRunes_cons c (rest ++ b) r).
Qed.

Lemma SpaceRunes_one (c : string) (r : N) :
  DecodeRuneInString c = (r, String.length c) -> IsSpace r = true ->
  SpaceRunes c.
Proof.
  intros Hd Hr. rewrite <- (append_empty_r c).
  apply (SpaceRunes_cons c "" r Hd Hr SpaceRunes_nil).
Qed.

(** A run of white space is empty or starts with a byte that starts a
    character. *)
Lemma SpaceRunes_start (p : string) :
  SpaceRunes p ->
  String.length p = 0%nat \/ byte p 0 < 128 \/ 191 < byte p 0.
Proof.
  intros [| c rest r Hd Hr _]; [now left | right].
  destruct (DecodeRune_start c r _ Hd (or_intror Hr)) as [Hn Hb].
  rewrite byte_append_l by lia. lia.
Qed.

(** *** The last character *)

Lemma back_to_start_le (s : string) (lim : nat) :
  forall k i, back_to_start s lim k = Some i -> (i <= k)%nat.
Proof.
  induction k as [|k IH]; intros i H; cbn [back_to_start] in H.
  - destruct (0 <? lim)%nat; [injection H as <-; lia |].
    destruct (RuneStart (byte s 0)); [injection H as <-; lia | discriminate H].
  - destruct (S k <? lim)%nat; [injection H as <-; lia |].
    destruct (RuneStart (byte s (S k))); [injection H as <-; lia |].
    specialize (IH i H). lia.
Qed.

Lemma drop_all (x : string) : drop 0 x = x.
Proof. unfold drop, slice. apply substring_all. lia. Qed.

Lemma byte_drop (x : string) (i k : nat) :
  (i + k < String.length x)%nat -> byte (drop i x) k = byte x (i + k).
Proof. intros H. unfold drop, slice. apply byte_substring. lia. Qed.

Lemma byte_take (x : string) (j k : nat) :
  (k < j)%nat -> byte (take j x) k = byte x k.
Proof.
  intros H. unfold take, slice. rewrite byte_substring by lia. reflexivity.
Qed.

Lemma byte_slice (x : string) (i j k : nat) :
  (i + k < j)%nat -> byte (slice x i j) k = byte x (i + k).
Proof. intros H. unfold slice. apply byte_substring. lia. Qed.

Lemma length_slice (x : string) (i j : nat) :
  (i <= j)%nat -> (j <= String.length x)%nat ->
  String.length (slice x i j) = (j - i)%nat.
Proof. intros Hi Hj. unfold slice. rewrite length_substring. lia. Qed.

Lemma slice_empty (x : string) (i : nat) : slice x i i = "".
Proof.
  unfold slice. rewrite Nat.sub_diag.
  generalize i. induction x as [|c x IH]; intros [|k]; cbn; auto.
Qed.

(** The last character of a text that is not empty: its bytes are the last
    bytes of the text, or it is the error character, one byte wide. *)
Lemma DecodeLastRune_cases (x : string) (r : N) (size : nat) :
  (1 <= String.length x)%nat ->
  DecodeLastRuneInString x = (r, size) ->
  (1 <= size <= String.length x)%nat /\
  (DecodeRuneInString (drop (String.length x - size) x) = (r, size) \/
   r = RuneError /\ size = 1%nat).
Proof.
  intros Hn. unfold DecodeLastRuneInString.
  destruct (String.length x =? 0)%nat eqn:E0; [apply Nat.eqb_eq in E0; lia |].
  destruct (byte x (String.length x - 1) <? RuneSelf) eqn:E1.
  { intros H. injection H as <- <-. split; [lia |]. left.
    apply N.ltb_lt in E1. unfold RuneSelf in E1.
    assert (byte (drop (String.length x - 1) x) 0 = byte x (String.length x - 1))
      as Hb by (rewrite byte_drop by lia; f_equal; lia).
    rewrite DecodeRune_ascii; rewrite ?Hb, ?length_drop; try reflexivity;
      try assumption; lia. }
  set (start := match (String.length x - 1)%nat with
                | O => 0%nat
                | S k => match back_to_start x (String.length x - UTFMax) k with
                         | Some i => i
                         | None => 0%nat
                         end
                end).
  assert (start < String.length x)%nat as Hstart.
  { unfold start. destruct (String.length x - 1)%nat as [|k] eqn:Ek; [lia |].
    destruct (back_to_start x (String.length x - UTFMax) k) as [i|] eqn:Eb;
      [apply back_to_start_le in Eb |]; lia. }
  destruct (DecodeRuneInString (slice x start (String.length x)))
    as [r' size'] eqn:Ed.
  destruct (start + size' =? String.length x)%nat eqn:E2; cbn [negb];
    intros H; injection H as <- <-.
  - apply Nat.eqb_eq in E2.
    pose proof (DecodeRune_size (slice x start (String.length x))) as Hs.
    rewrite length_slice, Ed in Hs by lia. cbn [snd] in Hs.
    split; [lia |]. left.
    replace (String.length x - size')%nat with start by lia. exact Ed.
  - split; [lia |]. now right.
Qed.

Lemma take_all (x : string) : take (String.length x) x = x.
Proof. unfold take, slice. apply substring_all. lia. Qed.

(** A text that ends with an ASCII byte has it as last character. *)
Lemma DecodeLastRune_ascii (x : string) :
  (1 <= String.length x)%nat -> byte x (String.length x - 1) < 128 ->
  DecodeLastRuneInString x = (byte x (String.length x - 1), 1%nat).
Proof.
  intros Hn Hb. unfold DecodeLastRuneInString.
  destruct (String.length x =? 0)%nat eqn:E0; [apply Nat.eqb_eq in E0; lia |].
  apply N.ltb_lt in Hb. unfold RuneSelf. now rewrite Hb.
Qed.

(** *** The two scans *)

(** The scan from the left stops at the first character that is not white
    space, past a run of white space; with no such character, all the rest
    is white space. *)
Lemma indexFunc_spec (s : string) :
  forall fuel i, (String.length s - i <= fuel)%nat ->
  match indexFunc_from IsSpace fuel s i false with
  | None => SpaceRunes (drop i s)
  | Some k =>
    (i <= k < String.length s)%nat /\ SpaceRunes (slice s i k) /\
    IsSpace (fst (DecodeRuneInString (drop k s))) = false
  end.
Proof.
  induction fuel as [|fuel IH]; intros i Hf; cbn [indexFunc_from].
  - unfold drop, slice. rewrite substring_none by lia. constructor.
  - destruct (String.length s <=? i)%nat eqn:E.
    + apply Nat.leb_le in E. unfold drop, slice.
      rewrite substring_none by lia. constructor.
    + apply Nat.leb_gt in E.
      change (slice s i (String.length s)) with (drop i s).
      destruct (DecodeRuneInString (drop i s)) as [r size] eqn:Ed.
      destruct (IsSpace r) eqn:Er; cbn [Bool.eqb].
      * pose proof (DecodeRune_size (drop i s)) as Hs.
        rewrite length_drop, Ed in Hs. cbn [snd] in Hs.
        specialize (Hs ltac:(lia)).
        assert (SpaceRunes (slice s i (i + size))) as Hc.
        { apply (SpaceRunes_one _ r); [| exact Er].
          rewrite length_slice by lia.
          replace (i + size - i)%nat with size by lia.
          apply (DecodeRune_local (drop i s)); auto.
          - rewrite length_slice by lia. lia.
          - intros k Hk. rewrite byte_slice, byte_drop by lia. reflexivity. }
        specialize (IH (i + size)%nat ltac:(lia)).
        destruct (indexFunc_from IsSpace fuel s (i + size) false) as [k|].
        -- destruct IH as [Hk [Hsp Hns]]. split; [lia |].
           split; [| exact Hns].
           rewrite (slice_split s i (i + size) k) by lia.
           now apply SpaceRunes_app.
        -- unfold drop.
           rewrite (slice_split s i (i + size) (String.length s)) by lia.
           now apply SpaceRunes_app.
      * split; [lia |]. split; [rewrite slice_empty; constructor |].
        rewrite Ed. exact Er.
Qed.

(** The scan from the right stops below the last character that is not
    white space, before a run of white space; with no such character, all
    that comes before is white space. *)
Lemma lastIndexFunc_spec (s : string) :
  forall fuel i, (i <= fuel)%nat -> (i <= String.length s)%nat ->
  match lastIndexFunc_from IsSpace fuel s i false with
  | None => SpaceRunes (take i s)
  | Some i' =>
    exists (j : nat) (r : N) (size : nat),
      (1 <= j <= i)%nat /\ DecodeLastRuneInString (take j s) = (r, size) /\
      i' = (j - size)%nat /\ IsSpace r = false /\ SpaceRunes (slice s j i)
  end.
Proof.
  induction fuel as [|fuel IH]; intros i Hf Hi; cbn [lastIndexFunc_from].
  - assert (i = 0)%nat as -> by lia. unfold take. rewrite slice_empty.
    constructor.
  - destruct (i =? 0)%nat eqn:E.
    + apply Nat.eqb_eq in E. subst i. unfold take. rewrite slice_empty.
      constructor.
    + apply Nat.eqb_neq in E. change (slice s 0 i) with (take i s).
      destruct (DecodeLastRuneInString (take i s)) as [r size] eqn:Ed.
      assert (String.length (take i s) = i) as Hl by (rewrite length_take; lia).
      destruct (DecodeLastRune_cases (take i s) r size ltac:(lia) Ed)
        as [Hsize Hc].
      rewrite Hl in Hsize, Hc.
      destruct (IsSpace r) eqn:Er; cbn [Bool.eqb].
      * destruct Hc as [Hc | [-> _]]; [| discriminate Er].
        assert (SpaceRunes (slice s (i - size) i)) as Hch.
        { apply (SpaceRunes_one _ r); [| exact Er].
          rewrite length_slice by lia.
          replace (i - (i - size))%nat with size by lia.
          apply (DecodeRune_local (drop (i - size) (take i s))); auto.
          - rewrite length_slice by lia. lia.
          - intros k Hk. rewrite byte_slice by lia.
            rewrite byte_drop by (rewrite Hl; lia).
            rewrite byte_take by lia. reflexivity. }
        specialize (IH (i - size)%nat ltac:(lia) ltac:(lia)).
        destruct (lastIndexFunc_from IsSpace fuel s (i - size) false) as [i'|].
        -- destruct IH as (j & r' & size' & Hj & Hd' & Hi' & Hr' & Hsp).
           exists j, r', size'.
           split; [lia |]. split; [exact Hd' |]. split; [exact Hi' |].
           split; [exact Hr' |].
           rewrite (slice_split s j (i - size) i) by lia.
           now apply SpaceRunes_app.
        -- unfold take. rewrite (slice_split s 0 (i - size) i) by lia.
           now apply SpaceRunes_app.
      * exists i, r, size.
        split; [lia |]. split; [exact Ed |]. split; [reflexivity |].
        split; [exact Er |]. rewrite slice_empty. constructor.
Qed.

(** *** The trimming functions *)

(** [TrimLeftFunc] removes a run of white space from the left, and leaves
    a text that starts with no white space. *)
Lemma TrimLeftFunc_trimmed (x : string) :
  exists pre : string,
    x = pre ++ TrimLeftFunc IsSpace x /\ SpaceRunes pre /\
    IsSpace (fst (DecodeRuneInString (TrimLeftFunc IsSpace x))) = false.
Proof.
  unfold TrimLeftFunc, indexFunc.
  pose proof (indexFunc_spec x (String.length x) 0 ltac:(lia)) as H.
  destruct (indexFunc_from IsSpace (String.length x) x 0 false) as [k|].
  - destruct H as [Hk [Hsp Hns]]. exists (take k x).
    split; [apply take_drop |]. split; assumption.
  - exists x. rewrite drop_all in H. rewrite append_empty_r.
    split; [reflexivity |]. split; [exact H | reflexivity].
Qed.

(** [TrimRightFunc] removes a run of white space from the right, and
    leaves a text that ends with no white space. *)
Lemma TrimRightFunc_trimmed (y : string) :
  exists post : string,
    y = TrimRightFunc IsSpace y ++ post /\ SpaceRunes post /\
    IsSpace (fst (DecodeLastRuneInString (TrimRightFunc IsSpace y))) = false.
Proof.
  unfold TrimRightFunc, lastIndexFunc.
  pose proof (lastIndexFunc_spec y (String.length y) (String.length y)
                (le_n _) (le_n _)) as H.
  destruct (lastIndexFunc_from IsSpace (String.length y) y (String.length y)
              false) as [i'|].
  - destruct H as (j & r & size & Hj & Hd & -> & Hr & Hsp).
    assert (String.length (take j y) = j) as Hl by (rewrite length_take; lia).
    destruct (DecodeLastRune_cases (take j y) r size ltac:(lia) Hd)
      as [Hsize Hc].
    rewrite Hl in Hsize, Hc.
    assert (byte (drop (j - size) (take j y)) 0 = byte y (j - size)) as Hb0.
    { rewrite byte_drop by (rewrite Hl; lia). rewrite byte_take by lia.
      f_equal. lia. }
    assert ((if RuneSelf <=? byte y (j - size)
             then let (_, wid) :=
                    DecodeRuneInString (slice y (j - size) (String.length y))
                  in slice y 0 (j - size + wid)
             else slice y 0 (j - size + 1)) = take j y) as ->.
    { destruct (RuneSelf <=? byte y (j - size)) eqn:Eb.
      - apply N.leb_le in Eb. unfold RuneSelf in Eb.
        change (slice y (j - size) (String.length y)) with (drop (j - size) y).
        destruct (DecodeRuneInString (drop (j - size) y)) as [r' wid] eqn:Ew.
        assert (wid = size) as ->.
        { destruct (Nat.le_gt_cases 2 size) as [H2 | H1].
          - destruct Hc as [Hc | [_ ->]]; [| lia].
            assert (DecodeRuneInString (drop (j - size) y) = (r, size)) as Hw.
            { apply (DecodeRune_local (drop (j - size) (take j y))); auto.
              - rewrite length_drop. lia.
              - intros k Hk. rewrite !byte_drop by (rewrite ?Hl; lia).
                rewrite byte_take by lia. reflexivity. }
            congruence.
          - assert (size = 1)%nat as -> by lia.
            pose proof (DecodeRune_alone (drop (j - 1) y)) as Ha.
            rewrite Ew in Ha. cbn [snd] in Ha. apply Ha.
            + rewrite length_drop. lia.
            + rewrite byte_drop by lia.
              replace (j - 1 + 0)%nat with (j - 1)%nat by lia. exact Eb.
            + rewrite length_drop.
              destruct (Nat.lt_ge_cases j (String.length y)) as [Hjy | Hjy];
                [| left; lia].
              destruct (SpaceRunes_start _ Hsp) as [H0 | H0].
              * rewrite length_slice in H0 by lia. lia.
              * right. rewrite byte_drop by lia.
                rewrite byte_slice in H0 by lia.
                replace (j - 1 + 1)%nat with (j + 0)%nat by lia. exact H0. }
        unfold take. f_equal. lia.
      - apply N.leb_gt in Eb. unfold RuneSelf in Eb.
        assert (size = 1)%nat as ->.
        { destruct (Nat.le_gt_cases 2 size) as [H2 | H1]; [| lia].
          destruct Hc as [Hc | [_ ->]]; [| lia].
          pose proof (DecodeRune_wide _ _ _ Hc H2) as Hw.
          rewrite Hb0 in Hw. lia. }
        unfold take. f_equal. lia. }
    exists (drop j y). split; [apply take_drop |].
    split; [exact Hsp |]. rewrite Hd. exact Hr.
  - exists y. rewrite slice_empty. rewrite take_all in H.
    split; [reflexivity |]. split; [exact H | reflexivity].
Qed.

Lemma TrimFunc_trimmed (x : string) : trimmed x (TrimFunc IsSpace x).
Proof.
  unfold TrimFunc, trimmed.
  destruct (TrimLeftFunc_trimmed x) as (pre & Hx & Hpre & Hfirst).
  remember (TrimLeftFunc IsSpace x) as y eqn:Hy.
  destruct (TrimRightFunc_trimmed y) as (post & Hr & Hpost & Hlast).
  exists pre, post. split; [rewrite <- Hr; exact Hx |].
  split; [exact Hpre |]. split; [exact Hpost |]. split; [| exact Hlast].
  destruct (DecodeRune_prefix (TrimRightFunc IsSpace y) post) as [H | H];
    rewrite H; [rewrite <- Hr; exact Hfirst | reflexivity].
Qed.

(** The second loop of [TrimSpace], on a text that starts with an ASCII
    byte that is no white space. *)
Lemma TrimSpace_stop_trimmed (s : string) :
  byte s 0 < 128 -> asciiSpace (byte s 0) = false ->
  forall stop, (1 <= stop <= String.length s)%nat ->
  exists post : string,
    take stop s = TrimSpace_stop s stop ++ post /\ SpaceRunes post /\
    IsSpace (fst (DecodeLastRuneInString (TrimSpace_stop s stop))) = false.
Proof.
  intros Hb Hns. induction stop as [|k IH]; intros Hstop; [lia |].
  cbn [TrimSpace_stop].
  destruct (RuneSelf <=? byte s k) eqn:E1.
  - change (slice s 0 (S k)) with (take (S k) s). apply TrimRightFunc_trimmed.
  - apply N.leb_gt in E1. unfold RuneSelf in E1.
    destruct (asciiSpace (byte s k)) eqn:E2.
    + destruct k as [|k']; [rewrite Hns in E2; discriminate E2 |].
      destruct (IH ltac:(lia)) as (post & Ht & Hpost & Hlast).
      exists (post ++ slice s (S k') (S (S k'))). split.
      * unfold take. rewrite (slice_split s 0 (S k') (S (S k'))) by lia.
        change (slice s 0 (S k')) with (take (S k') s). rewrite Ht.
        apply append_assoc.
      * split; [| exact Hlast]. apply SpaceRunes_app; [exact Hpost |].
        assert (byte (slice s (S k') (S (S k'))) 0 = byte s (S k')) as Hb1.
        { rewrite byte_slice by lia. f_equal. lia. }
        assert (String.length (slice s (S k') (S (S k'))) = 1%nat) as Hl1.
        { rewrite length_slice by lia. lia. }
        apply (SpaceRunes_one _ (byte s (S k'))).
        -- rewrite DecodeRune_ascii; rewrite ?Hb1, ?Hl1; try reflexivity;
             try assumption; lia.
        -- rewrite IsSpace_ascii; assumption.
    + exists "". rewrite append_empty_r. split; [reflexivity |].
      split; [constructor |].
      change (slice s 0 (S k)) with (take (S k) s).
      assert (String.length (take (S k) s) = S k) as Hl
        by (rewrite length_take; lia).
      assert (byte (take (S k) s) (String.length (take (S k) s) - 1) = byte s k)
        as Hbk.
      { rewrite Hl, byte_take by lia. f_equal. lia. }
      rewrite DecodeLastRune_ascii; rewrite ?Hbk; try assumption; try lia.
      cbn [fst]. rewrite IsSpace_ascii; assumption.
Qed.

(** [TrimSpace] removes a run of white space from the left and one from
    the right, and nothing else; what it returns neither starts nor ends
    with white space.  This holds for every text, ASCII or not, valid UTF-8
    or not. *)
Lemma TrimSpace_trimmed (s : string) : trimmed s (TrimSpace s).
Proof.
  induction s as [|a t IH]; cbn [TrimSpace].
  - exists "", "". split; [reflexivity |].
    split; [constructor |]. split; [constructor |]. split; reflexivity.
  - destruct (RuneSelf <=? N_of_ascii a) eqn:E1; [apply TrimFunc_trimmed |].
    apply N.leb_gt in E1. unfold RuneSelf in E1.
    assert (DecodeRuneInString (String a t) = (N_of_ascii a, 1%nat)) as Hd
      by (apply (DecodeRune_ascii (String a t)); [cbn; lia | exact E1]).
    destruct (asciiSpace (N_of_ascii a)) eqn:E2.
    + destruct IH as (pre & post & Ht & Hpre & Hpost & Hf & Hl).
      exists (String a pre), post.
      split; [cbn [append]; now rewrite <- Ht |].
      split; [| split; [exact Hpost | split; assumption]].
      apply (SpaceRunes_cons (String a "") pre (N_of_ascii a)).
      * apply (DecodeRune_ascii (String a "")); [cbn; lia | exact E1].
      * rewrite IsSpace_ascii; assumption.
      * exact Hpre.
    + destruct (TrimSpace_stop_trimmed (String a t) E1 E2
                  (String.length (String a t)) ltac:(cbn; lia))
        as (post & Ht & Hpost & Hlast).
      rewrite take_all in Ht.
      exists "", post. split; [exact Ht |].
      split; [constructor |]. split; [exact Hpost |]. split; [| exact Hlast].
      destruct (DecodeRune_prefix
                  (TrimSpace_stop (String a t) (String.length (String a t)))
                  post) as [H | H];
        rewrite H; [| reflexivity].
      rewrite <- Ht, Hd. cbn [fst]. rewrite IsSpace_ascii; assumption.
Qed.

(* ===================================================================== *)
(** ** There is one way to trim a text *)
(* ===================================================================== *)

(** *** The bytes of a character *)

Lemma decode_multi_cont (sz : nat) (lo hi : N) (n : nat) (s0 s1 s2 s3 r : N)
      (size : nat) :
  128 <= lo -> hi <= 191 ->
  decode_multi sz lo hi n s0 s1 s2 s3 = (r, size) -> (2 <= size)%nat ->
  (size <= 4)%nat /\ 128 <= s1 <= 191 /\
  ((3 <= size)%nat -> 128 <= s2 <= 191) /\
  ((4 <= size)%nat -> 128 <= s3 <= 191).
Proof.
  intros Hlo Hhi Hd Hsize. unfold decode_multi, locb, hicb in Hd.
  split_ifs; injection Hd as <- <-; to_prop; repeat split; lia.
Qed.

(** Past its first byte, a character of two bytes or more is made of
    continuation bytes, and it has no more than four bytes. *)
Lemma DecodeRune_cont (c : string) (r : N) (size : nat) :
  DecodeRuneInString c = (r, size) -> (2 <= size)%nat ->
  (size <= 4)%nat /\
  forall k, (1 <= k < size)%nat -> 128 <= byte c k <= 191.
Proof.
  intros Hd Hsize.
  destruct (DecodeRune_start c r size Hd (or_introl Hsize)) as [Hn _].
  destruct (DecodeRune_cases c Hn)
    as [[_ H] | [[_ [_ H]] | [_ [_ [Hlo [Hhi H]]]]]];
    [rewrite H in Hd; injection Hd as _ <-; lia
    |rewrite H in Hd; injection Hd as _ <-; lia |].
  rewrite H in Hd.
  destruct (decode_multi_cont _ _ _ _ _ _ _ _ _ _ Hlo Hhi Hd Hsize)
    as [H4 [H1 [H2 H3]]].
  split; [exact H4 |]. intros k Hk.
  assert (k = 1 \/ k = 2 \/ k = 3)%nat as [-> | [-> | ->]] by lia;
    [exact H1 | apply H2; lia | apply H3; lia].
Qed.

(** A white space character of one byte is an ASCII byte. *)
Lemma DecodeRune_space_one (c : string) (r : N) :
  DecodeRuneInString c = (r, 1%nat) -> IsSpace r = true ->
  byte c 0 < 128 /\ r = byte c 0.
Proof.
  intros Hd Hr.
  destruct (DecodeRune_start c r 1 Hd (or_intror Hr)) as [Hn _].
  destruct (DecodeRune_cases c Hn)
    as [[Hb H] | [[_ [_ H]] | [_ [_ [_ [_ H]]]]]]; rewrite H in Hd.
  - injection Hd as <-. now split.
  - injection Hd as <-. discriminate Hr.
  - pose proof (decode_multi_space (lead_size (byte c 0)) (lead_lo (byte c 0))
                  (lead_hi (byte c 0)) (String.length c)
                  (byte c 0) (byte c 1) (byte c 2) (byte c 3)) as Hsp.
    rewrite Hd in Hsp. cbn [fst snd] in Hsp. specialize (Hsp Hr). lia.
Qed.

(** A text that starts with the bytes of a white space character starts
    with that character. *)
Lemma DecodeRune_head (c x : string) (r : N) :
  DecodeRuneInString c = (r, String.length c) -> IsSpace r = true ->
  DecodeRuneInString (c ++ x) = (r, String.length c).
Proof.
  intros Hd Hr. apply (DecodeRune_local c); auto.
  - rewrite length_append. lia.
  - intros k Hk. now apply byte_append_l.
Qed.

(** *** Strings *)

Lemma append_eq_empty (a b : string) : a ++ b = "" -> a = "" /\ b = "".
Proof. destruct a; [now split | discriminate]. Qed.

Lemma append_overlap (a : string) :
  forall a' b b', a ++ b = a' ++ b' ->
  (String.length a <= String.length a')%nat ->
  exists d : string, a' = a ++ d /\ b = d ++ b'.
Proof.
  induction a as [|x a IH]; intros a' b b' Heq Hl.
  - exists a'. now split.
  - destruct a' as [|x' a']; [cbn in Hl; lia |].
    cbn in Heq, Hl. injection Heq as <- Heq.
    destruct (IH a' b b' Heq ltac:(lia)) as (d & -> & ->).
    exists d. now split.
Qed.

Lemma substring_append_r (x c : string) :
  substring (String.length x) (String.length c) (x ++ c) = c.
Proof.
  induction x as [|a x IH]; cbn; [apply substring_all; lia | exact IH].
Qed.

Lemma length_zero (a : string) : String.length a = 0%nat -> a = "".
Proof. destruct a; [reflexivity | discriminate]. Qed.

(** *** Runs of white space in a text *)

(** Two runs of white space at the start of one text: one goes on where
    the other stops. *)
Lemma SpaceRunes_align (p1 : string) :
  SpaceRunes p1 ->
  forall p2 u1 u2, SpaceRunes p2 -> p1 ++ u1 = p2 ++ u2 ->
  exists d : string, SpaceRunes d /\ (u1 = d ++ u2 \/ u2 = d ++ u1).
Proof.
  induction 1 as [| c rest r Hd Hr Hrest IH]; intros p2 u1 u2 Hp2 Heq.
  - exists p2. split; [exact Hp2 | now left].
  - destruct Hp2 as [| c' rest' r' Hd' Hr' Hrest'].
    + exists (c ++ rest). split; [| now right].
      now apply (SpaceRunes_cons c rest r).
    + rewrite !append_assoc in Heq.
      assert (String.length c = String.length c') as Hl.
      { pose proof (DecodeRune_head c (rest ++ u1) r Hd Hr) as H1.
        pose proof (DecodeRune_head c' (rest' ++ u2) r' Hd' Hr') as H2.
        rewrite Heq in H1. congruence. }
      destruct (append_inj_length _ _ _ _ Hl Heq) as [_ Heq'].
      exact (IH rest' u1 u2 Hrest' Heq').
Qed.

(** A text whose first character is no white space, followed by white
    space: when the whole starts with white space, the text is empty. *)
Lemma SpaceRunes_head (t post d rest : string) :
  IsSpace (fst (DecodeRuneInString t)) = false ->
  SpaceRunes post -> SpaceRunes d -> d <> "" ->
  t ++ post = d ++ rest -> t = "".
Proof.
  intros Hf Hpost Hd Hne Heq.
  destruct Hd as [| c d' r Hc Hr _]; [now contradiction Hne |].
  rewrite append_assoc in Heq.
  destruct (DecodeRune_start c r _ Hc (or_intror Hr)) as [Hn _].
  destruct (Nat.le_gt_cases (String.length c) (String.length t)) as [Hl | Hl].
  - symmetry in Heq.
    destruct (append_overlap _ _ _ _ Heq Hl) as (e & -> & _).
    rewrite (DecodeRune_head c e r Hc Hr) in Hf. cbn [fst] in Hf. congruence.
  - destruct (append_overlap _ _ _ _ Heq ltac:(lia)) as (e & Hce & Hpe).
    destruct (Nat.eq_dec (String.length t) 0) as [H0 | H0];
      [now apply length_zero |].
    exfalso.
    assert (2 <= String.length c)%nat as H2 by lia.
    destruct (DecodeRune_cont c r _ Hc H2) as [_ Hcont].
    specialize (Hcont (String.length t) ltac:(lia)).
    assert (byte c (String.length t) = byte post 0) as Hb.
    { assert (0 < String.length e)%nat as He
        by (rewrite Hce, length_append in Hl; lia).
      rewrite Hce, Hpe. pose proof (byte_append_r t e 0) as Hx.
      rewrite Nat.add_0_r in Hx. rewrite Hx.
      symmetry. now apply byte_append_l. }
    rewrite Hb in Hcont.
    destruct (SpaceRunes_start post Hpost) as [H | H]; [| lia].
    rewrite Hpe, length_append in H. rewrite Hce, length_append in Hl. lia.
Qed.

(** The part of a run of white space that comes before a run of white
    space is a run of white space. *)
Lemma SpaceRunes_split (p : string) :
  SpaceRunes p ->
  forall d q, p = d ++ q -> SpaceRunes q -> SpaceRunes d.
Proof.
  induction 1 as [| c rest r Hc Hr Hrest IH]; intros d q Heq Hq.
  - symmetry in Heq. apply append_eq_empty in Heq as [-> _]. constructor.
  - destruct (DecodeRune_start c r _ Hc (or_intror Hr)) as [Hn _].
    destruct (Nat.le_gt_cases (String.length c) (String.length d)) as [Hl | Hl].
    + destruct (append_overlap _ _ _ _ Heq Hl) as (d' & -> & Hrq).
      apply (SpaceRunes_cons c d' r Hc Hr). exact (IH d' q Hrq Hq).
    + symmetry in Heq.
      destruct (append_overlap _ _ _ _ Heq ltac:(lia)) as (e & Hce & Hqe).
      destruct (Nat.eq_dec (String.length d) 0) as [H0 | H0];
        [apply length_zero in H0; subst d; constructor |].
      exfalso.
      assert (2 <= String.length c)%nat as H2 by lia.
      destruct (DecodeRune_cont c r _ Hc H2) as [_ Hcont].
      specialize (Hcont (String.length d) ltac:(lia)).
      assert (byte c (String.length d) = byte q 0) as Hb.
      { assert (0 < String.length e)%nat as He
          by (rewrite Hce, length_append in Hl; lia).
        rewrite Hce, Hqe. pose proof (byte_append_r d e 0) as Hx.
        rewrite Nat.add_0_r in Hx. rewrite Hx.
        symmetry. now apply byte_append_l. }
      rewrite Hb in Hcont.
      destruct (SpaceRunes_start q Hq) as [H | H]; [| lia].
      rewrite Hqe, length_append in H. rewrite Hce, length_append in Hl. lia.
Qed.

(** A run of white space that is not empty ends with a white space
    character. *)
Lemma SpaceRunes_last (d : string) :
  SpaceRunes d -> d <> "" ->
  exists (d0 c : string) (r : N),
    d = d0 ++ c /\ DecodeRuneInString c = (r, String.length c) /\
    IsSpace r = true.
Proof.
  induction 1 as [| c rest r Hc Hr Hrest IH]; intros Hne;
    [now contradiction Hne |].
  destruct rest as [|a rest].
  - exists "", c, r. rewrite append_empty_r. now repeat split.
  - destruct (IH ltac:(discriminate)) as (d0 & c' & r' & Heq & Hc' & Hr').
    exists (c ++ d0), c', r'. rewrite Heq, append_assoc. now repeat split.
Qed.

(** *** The last character of a text that ends with white space *)

Lemma RuneStart_bytes :
  forallb (fun n : nat =>
             Bool.eqb (RuneStart (N.of_nat n))
                      ((N.of_nat n <? 128) || (191 <? N.of_nat n)))
          (seq 0 256) = true.
Proof. vm_compute. reflexivity. Qed.

Lemma RuneStart_range (b : N) :
  b < 256 -> RuneStart b = (b <? 128) || (191 <? b).
Proof.
  intros Hb. pose proof RuneStart_bytes as H.
  rewrite forallb_forall in H. specialize (H (N.to_nat b)).
  rewrite N2Nat.id in H. apply eqb_prop. apply H. apply in_seq. lia.
Qed.

Lemma back_to_start_find (s : string) (lim a : nat) :
  RuneStart (byte s a) = true -> (lim <= a)%nat ->
  forall k, (a <= k)%nat ->
  (forall i, (a < i <= k)%nat -> RuneStart (byte s i) = false) ->
  back_to_start s lim k = Some a.
Proof.
  intros Ha Hlim. induction k as [|k IH]; intros Hk Hno;
    cbn [back_to_start].
  - assert (a = 0)%nat as -> by lia.
    destruct (0 <? lim)%nat eqn:E; [apply Nat.ltb_lt in E; lia |].
    now rewrite Ha.
  - destruct (S k <? lim)%nat eqn:E; [apply Nat.ltb_lt in E; lia |].
    destruct (Nat.eq_dec a (S k)) as [-> | Hak]; [now rewrite Ha |].
    rewrite (Hno (S k)) by lia. apply IH; [lia |].
    intros i Hi. apply Hno. lia.
Qed.

(** A text that ends with the bytes of a white space character ends with
    that character. *)
Lemma DecodeLastRune_tail (x c : string) (r : N) :
  DecodeRuneInString c = (r, String.length c) -> IsSpace r = true ->
  DecodeLastRuneInString (x ++ c) = (r, String.length c).
Proof.
  intros Hc Hr.
  destruct (DecodeRune_start c r _ Hc (or_intror Hr)) as [Hn Hb0].
  assert (String.length (x ++ c) = String.length x + String.length c)%nat
    as Hl by apply length_append.
  destruct (Nat.eq_dec (String.length c) 1) as [H1 | H1].
  - rewrite H1 in Hc. destruct (DecodeRune_space_one c r Hc Hr) as [Hb ->].
    assert (byte (x ++ c) (String.length (x ++ c) - 1) = byte c 0) as Hlast.
    { replace (String.length (x ++ c) - 1)%nat
        with (String.length x + 0)%nat by lia.
      apply byte_append_r. }
    rewrite DecodeLastRune_ascii; rewrite ?Hlast, ?H1; try reflexivity;
      try assumption; lia.
  - assert (2 <= String.length c)%nat as H2 by lia.
    destruct (DecodeRune_cont c r _ Hc H2) as [H4 Hcont].
    assert (forall k, (k < String.length c)%nat ->
                      byte (x ++ c) (String.length x + k) = byte c k) as Hbyte
      by (intros k _; apply byte_append_r).
    unfold DecodeLastRuneInString.
    destruct (String.length (x ++ c) =? 0)%nat eqn:E0;
      [apply Nat.eqb_eq in E0; lia |].
    destruct (String.length (x ++ c) - 1)%nat as [|k] eqn:Ek; [lia |].
    replace (S k) with (String.length x + (String.length c - 1))%nat by lia.
    rewrite Hbyte by lia.
    destruct (byte c (String.length c - 1) <? RuneSelf) eqn:E1.
    { apply N.ltb_lt in E1. unfold RuneSelf in E1.
      specialize (Hcont (String.length c - 1)%nat ltac:(lia)). lia. }
    rewrite (back_to_start_find (x ++ c) _ (String.length x)).
    + replace (slice (x ++ c) (String.length x) (String.length (x ++ c)))
        with c.
      * rewrite Hc, Hl, Nat.eqb_refl. reflexivity.
      * unfold slice. rewrite Hl.
        replace (String.length x + String.length c - String.length x)%nat
          with (String.length c) by lia.
        symmetry. apply substring_append_r.
    + replace (String.length x) with (String.length x + 0)%nat by lia.
      rewrite Hbyte by lia.
      rewrite RuneStart_range by (apply byte_lt_256).
      destruct Hb0 as [Hb0 | Hb0].
      * apply N.ltb_lt in Hb0. now rewrite Hb0.
      * assert (191 < byte c 0) as Hb1 by lia. apply N.ltb_lt in Hb1.
        rewrite Hb1. apply orb_true_r.
    + unfold UTFMax. lia.
    + lia.
    + intros i Hi.
      replace i with (String.length x + (i - String.length x))%nat by lia.
      rewrite Hbyte by lia.
      rewrite RuneStart_range by (apply byte_lt_256).
      specialize (Hcont (i - String.length x)%nat ltac:(lia)).
      assert ((byte c (i - String.length x) <? 128) = false) as ->
        by (apply N.ltb_ge; lia).
      assert ((191 <? byte c (i - String.length x)) = false) as ->
        by (apply N.ltb_ge; lia).
      reflexivity.
Qed.

(** *** Trimming is a function *)

Lemma trimmed_right_unique (t1 t2 post1 post2 : string) :
  SpaceRunes post1 -> SpaceRunes post2 ->
  IsSpace (fst (DecodeLastRuneInString t2)) = false ->
  t1 ++ post1 = t2 ++ post2 ->
  (String.length t1 <= String.length t2)%nat ->
  t1 = t2.
Proof.
  intros Hp1 Hp2 Hl2 Heq Hlen.
  destruct (append_overlap _ _ _ _ Heq Hlen) as (d & Ht2 & Hpost1).
  pose proof (SpaceRunes_split post1 Hp1 d post2 Hpost1 Hp2) as Hd.
  destruct d as [|a d]; [now rewrite append_empty_r in Ht2 |].
  exfalso.
  destruct (SpaceRunes_last _ Hd ltac:(discriminate))
    as (d0 & c & r & Hdc & Hc & Hr).
  rewrite Ht2, Hdc, <- append_assoc in Hl2.
  rewrite (DecodeLastRune_tail (t1 ++ d0) c r Hc Hr) in Hl2.
  cbn [fst] in Hl2. congruence.
Qed.

Lemma trimmed_after (t1 t2 post1 post2 d : string) :
  SpaceRunes post1 -> SpaceRunes post2 -> SpaceRunes d ->
  IsSpace (fst (DecodeRuneInString t1)) = false ->
  IsSpace (fst (DecodeRuneInString t2)) = false ->
  IsSpace (fst (DecodeLastRuneInString t1)) = false ->
  IsSpace (fst (DecodeLastRuneInString t2)) = false ->
  t1 ++ post1 = d ++ t2 ++ post2 ->
  t1 = t2.
Proof.
  intros Hp1 Hp2 Hd Hf1 Hf2 Hl1 Hl2 Heq.
  destruct d as [|a d].
  - cbn [append] in Heq.
    destruct (Nat.le_ge_cases (String.length t1) (String.length t2)) as [H | H].
    + now apply (trimmed_right_unique t1 t2 post1 post2).
    + symmetry. now apply (trimmed_right_unique t2 t1 post2 post1).
  - assert (t1 = "") as ->
      by (apply (SpaceRunes_head t1 post1 (String a d) (t2 ++ post2));
          auto; discriminate).
    cbn [append] in Heq. symmetry.
    destruct (SpaceRunes_align post1 Hp1 (String a d) "" (t2 ++ post2) Hd)
      as (d' & Hd' & [H | H]).
    + now rewrite append_empty_r.
    + symmetry in H. apply append_eq_empty in H as [_ H].
      now apply append_eq_empty in H as [H _].
    + destruct d' as [|a' d']; [now apply append_eq_empty in H as [H _] |].
      apply (SpaceRunes_head t2 post2 (String a' d') ""); auto; discriminate.
Qed.

(** Two ways to trim one text give the same text. *)
Lemma trimmed_unique (s t1 t2 : string) :
  trimmed s t1 -> trimmed s t2 -> t1 = t2.
Proof.
  intros (pre1 & post1 & E1 & P1 & Q1 & F1 & L1)
         (pre2 & post2 & E2 & P2 & Q2 & F2 & L2).
  rewrite E1 in E2.
  destruct (SpaceRunes_align pre1 P1 pre2 (t1 ++ post1) (t2 ++ post2) P2 E2)
    as (d & Hd & [H | H]).
  - now apply (trimmed_after t1 t2 post1 post2 d).
  - symmetry. now apply (trimmed_after t2 t1 post2 post1 d).
Qed.

(** What [TrimSpace] returns is the trimmed text, and the only one. *)
Lemma TrimSpace_unique (s t : string) : trimmed s t <-> t = TrimSpace s.
Proof.
  split.
  - intros H. exact (trimmed_unique s t (TrimSpace s) H (TrimSpace_trimmed s)).
  - intros ->. apply TrimSpace_trimmed.
Qed.

(* ===================================================================== *)
(** ** The results of the command runner *)
(* ===================================================================== *)

(** C6.  When the process of a command starts and terminates, [ExecCmd]
    returns, with the [nil] error, a result that holds the options, the exit
    code of the process, and what the process wrote to its standard output
    and to its standard error, each trimmed by [strings.TrimSpace]: a piece
    of what was written, and on ASCII output what was written without the
    white space at both ends.  For every output, ASCII or not, the text of
    the result is what was written without a run of white space characters
    at its start and one at its end, and neither the first character of the
    result nor its last is white space; no other text is. *)
Theorem ExecCmd_result :
  forall (World : Type) (os : OS World) (options : CmdOptions)
         (s : State World) (code : N) (out err : string) (w' : World),
    os_spawn (world s) (command_of options) = (Exited code out err, w') ->
    exists (result : CmdResult) (s' : State World),
      ExecCmd options s = (Returned (result, None), s') /\
      world s' = w' /\
      Options result = options /\
      ExitCode result = code /\
      Stdout result = TrimSpace out /\
      Stderr result = TrimSpace err /\
      infix (Stdout result) out /\
      infix (Stderr result) err /\
      (all_ascii out = true -> Stdout result = trim_ascii out) /\
      (all_ascii err = true -> Stderr result = trim_ascii err) /\
      trimmed out (Stdout result) /\
      trimmed err (Stderr result) /\
      (forall t : string, trimmed out t -> t = Stdout result) /\
      (forall t : string, trimmed err t -> t = Stderr result).
Proof.
  intros World os options s code out err w' Hspawn.
  rewrite ExecCmd_run. cbn zeta. rewrite Hspawn.
  eexists. eexists. split; [reflexivity |]. cbn.
  do 5 (split; [reflexivity |]).
  split; [apply TrimSpace_infix |]. split; [apply TrimSpace_infix |].
  split; [apply TrimSpace_ascii |]. split; [apply TrimSpace_ascii |].
  split; [apply TrimSpace_trimmed |]. split; [apply TrimSpace_trimmed |].
  split; intros t Ht; now apply TrimSpace_unique.
Qed.

Lemma ExecCmd_result_witness :
  exists (result : CmdResult) (s' : State Sim.SimWorld),
    ExecCmd SimRuns.ping (mkState SimRuns.w_reply []) = (Returned (result, None), s') /\
    world s' = SimRuns.w_reply1 /\
    Options result = SimRuns.ping /\
    ExitCode result = 0 /\
    Stdout result = TrimSpace SimRuns.reply /\
    Stderr result = TrimSpace "" /\
    infix (Stdout result) SimRuns.reply /\
    infix (Stderr result) "" /\
    (all_ascii SimRuns.reply = true -> Stdout result = trim_ascii SimRuns.reply) /\
    (all_ascii "" = true -> Stderr result = trim_ascii "") /\
    trimmed SimRuns.reply (Stdout result) /\
    trimmed "" (Stderr result) /\
    (forall t : string, trimmed SimRuns.reply t -> t = Stdout result) /\
    (forall t : string, trimmed "" t -> t = Stderr result).
Proof.
  apply (ExecCmd_result Sim.SimWorld Sim.SimOS SimRuns.ping
           (mkState SimRuns.w_reply []) 0 SimRuns.reply "" SimRuns.w_reply1).
  reflexivity.
Defined.

Example TrimSpace_reply : TrimSpace SimRuns.reply = "Reply from ::1: time<1ms".
Proof. reflexivity. Qed.

(** Output that is not ASCII: a no-break space (U+00A0) and a blank before
    the word, a blank, a line feed and an ideographic space (U+3000) after
    it. *)
Example TrimSpace_reply_fr : TrimSpace SimRuns.reply_fr = SimRuns.ete.
Proof. reflexivity. Qed.

Example ExecCmd_reply_fr :
  exists s' : State Sim.SimWorld,
    ExecCmd SimRuns.ping (mkState SimRuns.w_fr []) =
      (Returned (mkCmdResult SimRuns.ping 0 SimRuns.ete SimRuns.ete, None), s').
Proof. eexists. reflexivity. Qed.

(** Bytes that are no UTF-8 are no white space, and stay. *)
Example TrimSpace_invalid :
  TrimSpace (SimRuns.bytes [32; 255; 160; 32; 194]) = SimRuns.bytes [255; 160; 32; 194].
Proof. reflexivity. Qed.

(* ===================================================================== *)
(** ** The backup of [ImportRegKey] *)
(* ===================================================================== *)

(** The commands of a run of [ImportRegKey]: the backup, then the import
    or nothing. *)
Lemma ImportRegKey_commands (World : Type) (os : OS World)
      (reg : RegExportImport) (w : World) :
  exists rest : list Cmd,
    started (trace (snd (run (ImportRegKey reg) w))) =
      reg_export_cmd (Key reg)
        (File reg ++ "." ++ Format_20060102150405 (os_now w)) (Arch reg) :: rest /\
    (rest = [] \/ rest = [reg_import_cmd (File reg) (Arch reg)]).
Proof.
  rewrite ImportRegKey_from. cbn zeta.
  change (File (backup_of reg (os_now w)))
    with (File reg ++ "." ++ Format_20060102150405 (os_now w)).
  destruct (os_spawn w _) as [[e | code1 out1 err1] w1]; cbn [snd trace].
  - exists []. split; [reflexivity | now left].
  - destruct (os_stat w1 (File reg)) as [e |]; cbn [snd trace].
    + exists []. rewrite !started_app, started_exit_report.
      split; [reflexivity | now left].
    + exists [reg_import_cmd (File reg) (Arch reg)].
      destruct (os_spawn w1 _) as [[e | code2 out2 err2] w2]; cbn [snd trace];
        rewrite !started_app, ?started_exit_report;
        (split; [reflexivity | now right]).
Qed.

(** C1.  Every run of [ImportRegKey] starts with [reg export] of the key and
    architecture it was given, into the file named after the file to import
    with a dot and the time stamp of the clock; [reg import], when it runs,
    is the second and last command.  The backup file is never the file to
    import.  For a civil reading of the clock the stamp has fourteen digits:
    the year on four, then month, day, hour, minute and second on two
    each. *)
Theorem ImportRegKey_backs_up_first :
  forall (World : Type) (os : OS World) (reg : RegExportImport) (w : World),
    let stamp := Format_20060102150405 (os_now w) in
    let bak := File reg ++ "." ++ stamp in
    (exists rest : list Cmd,
        started (trace (snd (run (ImportRegKey reg) w))) =
          reg_export_cmd (Key reg) bak (Arch reg) :: rest /\
        (rest = [] \/ rest = [reg_import_cmd (File reg) (Arch reg)])) /\
    bak <> File reg /\
    (civil (os_now w) ->
     String.length stamp = 14%nat /\
     exists y mo d h mi sec : string,
       stamp = y ++ mo ++ d ++ h ++ mi ++ sec /\
       numeral 4 (year (os_now w)) y /\
       numeral 2 (month (os_now w)) mo /\
       numeral 2 (day (os_now w)) d /\
       numeral 2 (hour (os_now w)) h /\
       numeral 2 (minute (os_now w)) mi /\
       numeral 2 (second (os_now w)) sec).
Proof.
  intros World os reg w stamp bak. split; [| split].
  - apply ImportRegKey_commands.
  - apply append_longer. discriminate.
  - intros Hcivil. split; [now apply Format_length |].
    destruct (Format_shape _ Hcivil) as (Hy & Hmo & Hd & Hh & Hmi & Hs).
    exists (appendInt (year (os_now w)) 4), (appendInt (month (os_now w)) 2),
           (appendInt (day (os_now w)) 2), (appendInt (hour (os_now w)) 2),
           (appendInt (minute (os_now w)) 2), (appendInt (second (os_now w)) 2).
    exact (conj eq_refl (conj Hy (conj Hmo (conj Hd (conj Hh (conj Hmi Hs)))))).
Qed.

Lemma ImportRegKey_backs_up_first_witness :
  civil (os_now SimRuns.w_quick) /\
  String.length (Format_20060102150405 (os_now SimRuns.w_quick)) = 14%nat.
Proof.
  assert (Hcivil : civil (os_now SimRuns.w_quick)).
  { unfold civil. cbn. lia. }
  split; [exact Hcivil |].
  exact (proj1 (proj2 (proj2 (ImportRegKey_backs_up_first
                                Sim.SimWorld Sim.SimOS Sim.foo SimRuns.w_quick))
                      Hcivil)).
Defined.

Example ImportRegKey_foo :
  started (trace (snd (run (ImportRegKey Sim.foo) SimRuns.w_quick))) =
  [reg_export_cmd "HKCU\Software\Foo" "C:\backup\foo.reg.20261031070405" "64";
   reg_import_cmd "C:\backup\foo.reg" "64"].
Proof. reflexivity. Qed.

(** The file that a run of [ImportRegKey] writes its backup to. *)
Lemma ImportRegKey_first_file (World : Type) (os : OS World)
      (reg : RegExportImport) (w : World) :
  first_file (trace (snd (run (ImportRegKey reg) w))) =
  Some (File reg ++ "." ++ Format_20060102150405 (os_now w)).
Proof.
  unfold first_file.
  destruct (ImportRegKey_commands World os reg w) as (rest & -> & _).
  reflexivity.
Qed.

(** Two imports of the same file, one straight after the other, on a
    machine where [reg] takes a quarter of a second: both runs succeed, the
    clock has moved between them, and both backups go to
    [foo.reg.20261031070405]. *)
Lemma successive_backups_same_file :
  exists s1 s2 : State Sim.SimWorld,
    run (ImportRegKey Sim.foo) SimRuns.w_quick = (Returned tt, s1) /\
    run (ImportRegKey Sim.foo) (world s1) = (Returned tt, s2) /\
    os_now SimRuns.w_quick <> os_now (world s1) /\
    first_file (trace s1) = Some "C:\backup\foo.reg.20261031070405" /\
    first_file (trace s2) = Some "C:\backup\foo.reg.20261031070405" /\
    ~ (first_file (trace s1) <> first_file (trace s2)).
Proof.
  eexists. eexists. split; [reflexivity |]. split; [reflexivity |].
  split; [discriminate |]. split; [reflexivity |]. split; [reflexivity |].
  intros Hne. now apply Hne.
Qed.

(** C8, amended.  Two runs of [ImportRegKey] for the same key and file write
    their backups to two different files exactly when the clock reads a
    different second at the start of each: the stamp has the resolution of
    one second, so two runs that start within the same second name the same
    backup file. *)
Theorem successive_backups_differ_by_second :
  forall (World : Type) (os : OS World) (reg : RegExportImport) (w1 w2 : World),
    civil (os_now w1) -> civil (os_now w2) ->
    first_file (trace (snd (run (ImportRegKey reg) w1))) =
      Some (File reg ++ "." ++ Format_20060102150405 (os_now w1)) /\
    first_file (trace (snd (run (ImportRegKey reg) w2))) =
      Some (File reg ++ "." ++ Format_20060102150405 (os_now w2)) /\
    (first_file (trace (snd (run (ImportRegKey reg) w1))) <>
     first_file (trace (snd (run (ImportRegKey reg) w2)))
     <-> ~ same_second (os_now w1) (os_now w2)).
Proof.
  intros World os reg w1 w2 H1 H2.
  rewrite !ImportRegKey_first_file. split; [reflexivity |]. split; [reflexivity |].
  pose proof (Format_same_second _ _ H1 H2) as Hsame.
  split.
  - intros Hne Hs. apply Hne. apply Hsame in Hs. now rewrite Hs.
  - intros Hns Heq. apply Hns, Hsame. injection Heq as Heq.
    apply append_inj_length in Heq as [_ Heq]; [| reflexivity].
    now injection Heq.
Qed.

Lemma successive_backups_differ_by_second_witness :
  first_file (trace (snd (run (ImportRegKey Sim.foo) SimRuns.w_quick))) <>
  first_file (trace (snd (run (ImportRegKey Sim.foo) SimRuns.w_soft2)))
  <-> ~ same_second (os_now SimRuns.w_quick) (os_now SimRuns.w_soft2).
Proof.
  apply (successive_backups_differ_by_second
           Sim.SimWorld Sim.SimOS Sim.foo SimRuns.w_quick SimRuns.w_soft2).
  - unfold civil. cbn. lia.
  - unfold civil. cbn. lia.
Defined.

(* ===================================================================== *)
(** ** More on the command runner and the registry helpers *)
(* ===================================================================== *)

Lemma stats_app (a b : list Event) : stats (a ++ b) = (stats a ++ stats b)%list.
Proof.
  induction a as [|[] a IH]; simpl; [reflexivity | assumption | | assumption].
  now rewrite IH.
Qed.

Lemma fatals_logged_app (a b : list Event) :
  fatals_logged (a ++ b) = (fatals_logged a ++ fatals_logged b)%list.
Proof.
  induction a as [|[[] | |] a IH]; simpl; try assumption; [reflexivity |].
  now rewrite IH.
Qed.

Lemma readers_exit_report (code : N) (stderr : string) :
  stats (exit_report code stderr) = [] /\
  fatals_logged (exit_report code stderr) = [].
Proof.
  unfold exit_report. destruct (negb _); [| now split].
  now destruct (0 <? String.length stderr)%nat.
Qed.

(** The working directory of the options is the directory of the command,
    whether it is empty or not. *)
Lemma command_of_fields (options : CmdOptions) :
  command_of options =
  mkCmd (Command options) (Command options :: Args options)
        (WorkingDir options) (HideWindow options).
Proof.
  unfold command_of. cbn [cmd_Path cmd_Args cmd_Dir cmd_HideWindow].
  destruct (String.eqb_spec (WorkingDir options) "") as [-> | _]; reflexivity.
Qed.

(** X2.  [ExecCmd] never ends the program and logs no error: whatever the
    operating system does it returns to its caller, after one [Info] entry
    and the start of one command, which has the name, the arguments, the
    working directory (empty or not) and the hide-window flag of the
    options.  The result holds the options in every case, and the error it
    returns is [nil] exactly when the command started. *)
Theorem ExecCmd_always_returns :
  forall (World : Type) (os : OS World) (options : CmdOptions) (s : State World),
    let c := mkCmd (Command options) (Command options :: Args options)
                   (WorkingDir options) (HideWindow options) in
    exists (result : CmdResult) (err : option error),
      ExecCmd options s =
        (Returned (result, err),
         mkState (snd (os_spawn (world s) c))
                 (trace s ++
                  [EvLog Info "Exec %s %s" [Command options; Join (Args options) " "];
                   EvStart c (fst (os_spawn (world s) c))])) /\
      Options result = options /\
      (err = None <->
       exists code out e, fst (os_spawn (world s) c) = Exited code out e).
Proof.
  intros World os options s c. rewrite ExecCmd_run. cbn zeta.
  rewrite command_of_fields. fold c.
  destruct (os_spawn (world s) c) as [[e | code out err] w'];
    eexists; eexists; (split; [reflexivity |]); (split; [reflexivity |]);
    cbn [fst]; split.
  - discriminate.
  - intros (code & out & e' & Heq). discriminate.
  - intros _. now exists code, out, err.
  - reflexivity.
Qed.

(** X3.  [ExportRegKey] ends the program, with status 1, exactly when [reg]
    cannot be started; its last words are then one [Fatal] entry with the
    key and the error, and no [Error] entry.  When [reg] starts,
    [ExportRegKey] returns, whatever the exit code. *)
Theorem ExportRegKey_fatal_iff_no_start :
  forall (World : Type) (os : OS World) (reg : RegExportImport) (w : World),
    let c := reg_export_cmd (Key reg) (File reg) (Arch reg) in
    let r := run (ExportRegKey reg) w in
    ((exists n, fst r = Exit n) <-> exists e, fst (os_spawn w c) = StartError e) /\
    (forall n, fst r = Exit n -> n = 1%nat) /\
    (fst r = Returned tt <->
     exists code out err, fst (os_spawn w c) = Exited code out err) /\
    (forall e, fst (os_spawn w c) = StartError e ->
               fatals_logged (trace (snd r)) =
                 [("Cannot export registry key '%s': %v", [Key reg; e])] /\
               errors_logged (trace (snd r)) = []) /\
    world (snd r) = snd (os_spawn w c).
Proof.
  intros World os reg w c r. subst r. rewrite ExportRegKey_from. cbn zeta. fold c.
  destruct (os_spawn w c) as [[e | code out err] w']; cbn [fst snd trace world].
  - repeat split.
    + intros _. now exists e.
    + intros _. now exists 1%nat.
    + intros n Hn. now injection Hn.
    + discriminate.
    + intros (code & out & err & Heq). discriminate.
    + injection H as <-. reflexivity.
  - repeat split.
    + intros [n Hn]. discriminate.
    + intros [e He]. discriminate.
    + discriminate.
    + intros _. now exists code, out, err.
    + discriminate.
    + discriminate.
Qed.

(** X4.  When [reg export] exits with 0, [ExportRegKey] logs nothing at
    [Error] level, also when the command wrote to its standard error: that
    text is dropped. *)
Theorem ExportRegKey_exit_zero_is_silent :
  forall (World : Type) (os : OS World) (reg : RegExportImport) (w : World)
         (out err : string) (w' : World),
    os_spawn w (reg_export_cmd (Key reg) (File reg) (Arch reg))
      = (Exited 0 out err, w') ->
    run (ExportRegKey reg) w =
      (Returned tt,
       mkState w'
         [EvLog Info "Exec %s %s"
                ["reg"; Join ["export"; Key reg; File reg; "/y"; "/reg:" ++ Arch reg] " "];
          EvStart (reg_export_cmd (Key reg) (File reg) (Arch reg))
                  (Exited 0 out err)]).
Proof.
  intros World os reg w out err w' Hspawn.
  rewrite ExportRegKey_from. cbn zeta. rewrite Hspawn. reflexivity.
Qed.

Lemma ExportRegKey_exit_zero_is_silent_witness :
  errors_logged
    (trace (snd (run (ExportRegKey Sim.foo)
                     (Sim.mkSim Sim.t0 [] [(Exited 0 "" "WARNING: slow", Sim.t1)]))))
  = [].
Proof.
  rewrite (ExportRegKey_exit_zero_is_silent Sim.SimWorld Sim.SimOS Sim.foo
             (Sim.mkSim Sim.t0 [] [(Exited 0 "" "WARNING: slow", Sim.t1)])
             "" "WARNING: slow"
             (Sim.mkSim Sim.t1 ["C:\backup\foo.reg"] [])).
  - reflexivity.
  - reflexivity.
Defined.

(** X5.  When the backup cannot be started, [ImportRegKey] ends the program
    with status 1 straight away: the file to import is not looked at and
    [reg import] is not started. *)
Theorem ImportRegKey_stops_when_backup_cannot_start :
  forall (World : Type) (os : OS World) (reg : RegExportImport) (w : World)
         (e : error) (w1 : World),
    os_spawn w (reg_export_cmd (Key reg)
                  (File (backup_of reg (os_now w))) (Arch reg))
      = (StartError e, w1) ->
    exists s',
      run (ImportRegKey reg) w = (Exit 1, s') /\
      world s' = w1 /\
      stats (trace s') = [] /\
      started (trace s') =
        [reg_export_cmd (Key reg) (File (backup_of reg (os_now w))) (Arch reg)] /\
      fatals_logged (trace s') =
        [("Cannot export registry key '%s': %v", [Key reg; e])].
Proof.
  intros World os reg w e w1 Hexp.
  rewrite ImportRegKey_from. cbn zeta. rewrite Hexp.
  eexists. repeat split.
Qed.

Lemma ImportRegKey_stops_when_backup_cannot_start_witness :
  exists s',
    run (ImportRegKey Sim.foo) SimRuns.w_noreg = (Exit 1, s') /\
    world s' = SimRuns.w_noreg /\
    stats (trace s') = [] /\
    started (trace s') =
      [reg_export_cmd "HKCU\Software\Foo" "C:\backup\foo.reg.20261031070405" "64"] /\
    fatals_logged (trace s') =
      [("Cannot export registry key '%s': %v",
        ["HKCU\Software\Foo"; "executable file not found in %PATH%"])].
Proof.
  apply (ImportRegKey_stops_when_backup_cannot_start Sim.SimWorld Sim.SimOS
           Sim.foo SimRuns.w_noreg _ SimRuns.w_noreg).
  reflexivity.
Defined.

(** X6.  When the backup has run, with whatever exit code, and the file to
    import is there, [ImportRegKey] looks at that file once and starts
    [reg import] with the arguments [import], the file and [/reg:] followed
    by the architecture: a backup that failed with a non-zero exit code does
    not hold the import back. *)
Theorem ImportRegKey_imports_after_any_backup :
  forall (World : Type) (os : OS World) (reg : RegExportImport) (w : World)
         (code1 : N) (out1 err1 : string) (w1 : World),
    os_spawn w (reg_export_cmd (Key reg)
                  (File (backup_of reg (os_now w))) (Arch reg))
      = (Exited code1 out1 err1, w1) ->
    os_stat w1 (File reg) = None ->
    let tr := trace (snd (run (ImportRegKey reg) w)) in
    started tr =
      [mkCmd "reg"
             ["reg"; "export"; Key reg;
              File reg ++ "." ++ Format_20060102150405 (os_now w);
              "/y"; "/reg:" ++ Arch reg] "" true;
       mkCmd "reg" ["reg"; "import"; File reg; "/reg:" ++ Arch reg] "" true] /\
    stats tr = [File reg] /\
    world (snd (run (ImportRegKey reg) w)) =
      snd (os_spawn w1 (reg_import_cmd (File reg) (Arch reg))).
Proof.
  intros World os reg w code1 out1 err1 w1 Hexp Hstat tr. subst tr.
  rewrite ImportRegKey_from. cbn zeta. rewrite Hexp, Hstat.
  destruct (os_spawn w1 _) as [[e | code2 out2 err2] w2]; cbn [snd trace world];
    rewrite !started_app, !stats_app, ?started_exit_report,
      ?(proj1 (readers_exit_report _ _)); repeat split.
Qed.

Lemma ImportRegKey_imports_after_any_backup_witness :
  started (trace (snd (run (ImportRegKey Sim.foo) SimRuns.w_soft))) =
    [mkCmd "reg"
           ["reg"; "export"; "HKCU\Software\Foo";
            "C:\backup\foo.reg" ++ "." ++ "20261031070405"; "/y"; "/reg:64"] "" true;
     mkCmd "reg" ["reg"; "import"; "C:\backup\foo.reg"; "/reg:64"] "" true] /\
  errors_logged (trace (snd (run (ImportRegKey Sim.foo) SimRuns.w_soft))) =
    ["1"; "ERROR: Access is denied." ++ newline;
     "1"; "ERROR: Access is denied." ++ newline].
Proof.
  split.
  - apply (ImportRegKey_imports_after_any_backup Sim.SimWorld Sim.SimOS Sim.foo
             SimRuns.w_soft 1 "" "ERROR: Access is denied." SimRuns.w_soft1).
    + reflexivity.
    + reflexivity.
  - reflexivity.
Defined.

(** X7.  [ImportRegKey] ends the program exactly in two cases: the backup
    cannot be started, or the backup has run, the file to import is there
    and [reg import] cannot be started.  The status is then 1; in every
    other case [ImportRegKey] returns. *)
Theorem ImportRegKey_fatal_iff :
  forall (World : Type) (os : OS World) (reg : RegExportImport) (w : World),
    let c1 := reg_export_cmd (Key reg) (File (backup_of reg (os_now w))) (Arch reg) in
    let c2 := reg_import_cmd (File reg) (Arch reg) in
    let w1 := snd (os_spawn w c1) in
    let r := fst (run (ImportRegKey reg) w) in
    (r = Exit 1 \/ r = Returned tt) /\
    (r = Exit 1 <->
     (exists e, fst (os_spawn w c1) = StartError e) \/
     ((exists code out err, fst (os_spawn w c1) = Exited code out err) /\
      os_stat w1 (File reg) = None /\
      exists e, fst (os_spawn w1 c2) = StartError e)).
Proof.
  intros World os reg w c1 c2 w1 r. subst r w1.
  rewrite ImportRegKey_from. cbn zeta. fold c1 c2.
  destruct (os_spawn w c1) as [[e | code1 out1 err1] w1]; cbn [fst snd].
  - split; [now left |]. split; [intros _; left; now exists e | reflexivity].
  - destruct (os_stat w1 (File reg)) as [e |]; cbn [fst].
    + split; [now right |]. split; [discriminate |].
      intros [[e' He'] | (_ & Hs & _)]; discriminate.
    + destruct (os_spawn w1 c2) as [[e | code2 out2 err2] w2]; cbn [fst].
      * split; [now left |]. split; [| reflexivity].
        intros _. right. split; [now exists code1, out1, err1 |].
        split; [reflexivity | now exists e].
      * split; [now right |]. split; [discriminate |].
        intros [[e' He'] | (_ & _ & e' & He')]; discriminate.
Qed.

(* ===================================================================== *)
(** ** [Launch] *)
(* ===================================================================== *)

Lemma infos_logged_app (a b : list Event) :
  infos_logged (a ++ b) = (infos_logged a ++ infos_logged b)%list.
Proof.
  induction a as [|[[] | |] a IH]; simpl; try assumption; [reflexivity |].
  now rewrite IH.
Qed.

(** [Launch] by the outcome of its command. *)
Lemma Launch_from (World : Type) (os : OS World) (Papp : App.papp) (w : World) :
  run (Launch Papp) w =
  let c := mkCmd (App.Process Papp) (App.Process Papp :: App.Args Papp)
                 (App.WorkingDir Papp) false in
  let logs :=
    [EvLog Info "Process: %s" [App.Process Papp];
     EvLog Info "Args: %s" [Join (App.Args Papp) " "];
     EvLog Info "Working dir: %s" [App.WorkingDir Papp];
     EvLog Info "Data path: %s" [App.DataPath Papp];
     EvLog Info "Launch %s..." [App.Name Papp];
     EvLog Info "Exec %s %s" [App.Process Papp; Join (App.Args Papp) " "]] in
  match os_spawn w c with
  | (StartError e as r, w') =>
    (Exit 1, mkState w' (logs ++ [EvStart c r; EvLog Fatal "Command failed: %v" [e]]))
  | (Exited _ _ _ as r, w') => (Returned tt, mkState w' (logs ++ [EvStart c r]))
  end.
Proof.
  unfold run, Launch, Log_Infof, Log_Fatalf, emit, start_and_wait. cbn.
  destruct (os_spawn w _) as [[e | code out err] w']; reflexivity.
Qed.

(** X8.  [Launch] starts one command: the process of the application with
    its arguments, in its working directory, and with the window not hidden,
    unlike the registry commands.  It writes six [Info] entries, the last
    with the command line, and looks at no file. *)
Theorem Launch_command :
  forall (World : Type) (os : OS World) (Papp : App.papp) (w : World),
    let tr := trace (snd (run (Launch Papp) w)) in
    started tr =
      [mkCmd (App.Process Papp) (App.Process Papp :: App.Args Papp)
             (App.WorkingDir Papp) false] /\
    infos_logged tr =
      [("Process: %s", [App.Process Papp]);
       ("Args: %s", [Join (App.Args Papp) " "]);
       ("Working dir: %s", [App.WorkingDir Papp]);
       ("Data path: %s", [App.DataPath Papp]);
       ("Launch %s...", [App.Name Papp]);
       ("Exec %s %s", [App.Process Papp; Join (App.Args Papp) " "])] /\
    stats tr = [].
Proof.
  intros World os Papp w tr. subst tr. rewrite Launch_from. cbn zeta.
  destruct (os_spawn w _) as [[e | code out err] w']; cbn [snd trace];
    repeat split.
Qed.

(** X9.  [Launch] does not look at how the application ends: when the
    process starts, [Launch] returns whatever the exit code, and logs
    nothing about it.  It ends the program, with status 1 and one [Fatal]
    entry, exactly when the process cannot be started. *)
Theorem Launch_ignores_exit_code :
  forall (World : Type) (os : OS World) (Papp : App.papp) (w : World),
    let c := mkCmd (App.Process Papp) (App.Process Papp :: App.Args Papp)
                   (App.WorkingDir Papp) false in
    let r := run (Launch Papp) w in
    (forall code out err,
        fst (os_spawn w c) = Exited code out err ->
        fst r = Returned tt /\
        errors_logged (trace (snd r)) = [] /\
        fatals_logged (trace (snd r)) = [] /\
        length (trace (snd r)) = 7%nat) /\
    (forall e,
        fst (os_spawn w c) = StartError e ->
        fst r = Exit 1 /\
        fatals_logged (trace (snd r)) = [("Command failed: %v", [e])]) /\
    world (snd r) = snd (os_spawn w c).
Proof.
  intros World os Papp w c r. subst r. rewrite Launch_from. cbn zeta. fold c.
  destruct (os_spawn w c) as [[e | code out err] w']; cbn [fst snd trace world].
  - split; [intros code out err Heq; discriminate |].
    split; [| reflexivity]. intros e' He'. injection He' as <-. now split.
  - split; [| split; [intros e He; discriminate | reflexivity]].
    intros code' out' err' _. repeat split.
Qed.

Lemma Launch_ignores_exit_code_witness :
  fst (run (Launch SimApp.slack) SimApp.w_app) = Returned tt /\
  errors_logged (trace (snd (run (Launch SimApp.slack) SimApp.w_app))) = [] /\
  fatals_logged (trace (snd (run (Launch SimApp.slack) SimApp.w_app))) = [] /\
  length (trace (snd (run (Launch SimApp.slack) SimApp.w_app))) = 7%nat.
Proof.
  apply (proj1 (Launch_ignores_exit_code Sim.SimWorld Sim.SimOS SimApp.slack
                  SimApp.w_app) 3 "" "").
  reflexivity.
Defined.

(* ===================================================================== *)
(** ** [FindElectronAppFolder] *)
(* ===================================================================== *)

Lemma HasPrefix_spec (prefix : string) :
  forall s, HasPrefix s prefix = true <-> exists rest, s = prefix ++ rest.
Proof.
  unfold HasPrefix.
  induction prefix as [|a p IH]; intros s.
  - split; [intros _; now exists s | intros _; now destruct s].
  - destruct s as [|b s]; cbn [String.prefix].
    + split; [discriminate | intros [rest Heq]; discriminate].
    + destruct (ascii_dec a b) as [<- | Hne].
      * rewrite IH. split; intros [rest Heq]; exists rest.
        -- cbn. now rewrite Heq.
        -- cbn in Heq. now injection Heq.
      * split; [discriminate |]. intros [rest Heq]. cbn in Heq.
        injection Heq as Hb _. now elim Hne.
Qed.

Lemma FindElectronAppFolder_loop_find (World : Type) (prefix : string)
      (rootFiles : list FileInfo) (s : State World) :
  FindElectronAppFolder_loop prefix rootFiles s =
  match find (matches prefix) rootFiles with
  | Some f =>
    (Returned (Some (fi_Name f)),
     mkState (world s)
             (trace s ++ [EvLog Info "Electron app folder found: %s" [fi_Name f]]))
  | None => (Returned None, s)
  end.
Proof.
  induction rootFiles as [|f rest IH]; cbn [FindElectronAppFolder_loop find].
  - reflexivity.
  - unfold matches at 1. destruct (HasPrefix (fi_Name f) prefix && fi_IsDir f).
    + reflexivity.
    + exact IH.
Qed.

(** [FindElectronAppFolder] by what the directory holds. *)
Lemma FindElectronAppFolder_from (World : Type) (dirs : Dirs World)
      (prefix source : string) (w : World) :
  run (FindElectronAppFolder prefix source) w =
  let rootFiles := match os_readdir w source with
                   | Some l => l
                   | None => []
                   end in
  let lookup := EvLog Info "Lookup app folder in: %s" [source] in
  match find (matches prefix) rootFiles with
  | Some f =>
    (Returned (fi_Name f),
     mkState w [lookup; EvLog Info "Electron app folder found: %s" [fi_Name f]])
  | None =>
    (Exit 1,
     mkState w [lookup;
                EvLog Fatal "Electron main path does not exist with prefix '%s' in %s"
                      [prefix; source]])
  end.
Proof.
  unfold run, FindElectronAppFolder, Log_Infof, emit, ioutil_ReadDir.
  cbn [bind Monad_Prog world trace app]. rewrite FindElectronAppFolder_loop_find.
  cbn [world trace].
  destruct (find (matches prefix) _) as [f |]; reflexivity.
Qed.

(** X10.  [FindElectronAppFolder] returns the name (not the path) of the
    first entry of the directory that is itself a directory and whose name
    starts with the prefix; entries before it that are plain files, or whose
    names do not start with the prefix, are passed over.  Nothing is
    started and the world is left as it was. *)
Theorem FindElectronAppFolder_first_match :
  forall (World : Type) (dirs : Dirs World) (prefix source : string) (w : World)
         (before after : list FileInfo) (f : FileInfo),
    os_readdir w source = Some (before ++ f :: after)%list ->
    (forall g, In g before ->
               fi_IsDir g = false \/ HasPrefix (fi_Name g) prefix = false) ->
    fi_IsDir f = true ->
    HasPrefix (fi_Name f) prefix = true ->
    run (FindElectronAppFolder prefix source) w =
      (Returned (fi_Name f),
       mkState w [EvLog Info "Lookup app folder in: %s" [source];
                  EvLog Info "Electron app folder found: %s" [fi_Name f]]).
Proof.
  intros World dirs prefix source w before after f Hdir Hbefore Hf Hp.
  rewrite FindElectronAppFolder_from. cbn zeta. rewrite Hdir.
  assert (Hfind : find (matches prefix) (before ++ f :: after)%list = Some f).
  { clear Hdir. induction before as [|g before IH]; cbn [app find].
    - unfold matches. now rewrite Hp, Hf.
    - assert (Hg : matches prefix g = false).
      { unfold matches. destruct (Hbefore g (or_introl eq_refl)) as [-> | ->];
          [apply andb_false_r | reflexivity]. }
      rewrite Hg. apply IH. intros h Hh. apply Hbefore. now right. }
  now rewrite Hfind.
Qed.

Lemma FindElectronAppFolder_first_match_witness :
  run (FindElectronAppFolder "app-" "C:\apps\slack") SimApp.app_dir =
    (Returned "app-3.1.2",
     mkState SimApp.app_dir
             [EvLog Info "Lookup app folder in: %s" ["C:\apps\slack"];
              EvLog Info "Electron app folder found: %s" ["app-3.1.2"]]).
Proof.
  apply (FindElectronAppFolder_first_match SimApp.DirWorld SimApp.SimDirs
           "app-" "C:\apps\slack" SimApp.app_dir
           [mkFileInfo "Update.exe" false; mkFileInfo "app-3.0.txt" false]
           [mkFileInfo "app-3.2.0" true; mkFileInfo "packages" true]
           (mkFileInfo "app-3.1.2" true)).
  - reflexivity.
  - intros g [<- | [<- | []]]; now left.
  - reflexivity.
  - reflexivity.
Defined.

(** X11.  [FindElectronAppFolder] ends the program, with status 1 and one
    [Fatal] entry, exactly when the directory holds no directory whose name
    starts with the prefix, and so when the directory cannot be read: the
    error of [ReadDir] is dropped.  A name it returns is the name of a
    directory among the entries and starts with the prefix. *)
Theorem FindElectronAppFolder_fatal_iff_no_match :
  forall (World : Type) (dirs : Dirs World) (prefix source : string) (w : World),
    let rootFiles := match os_readdir w source with
                     | Some l => l
                     | None => []
                     end in
    let r := run (FindElectronAppFolder prefix source) w in
    (fst r = Exit 1 <->
     forall f, In f rootFiles -> fi_IsDir f = true ->
               forall rest, fi_Name f <> prefix ++ rest) /\
    (forall name, fst r = Returned name ->
                  exists f rest, In f rootFiles /\ fi_Name f = name /\
                                 fi_IsDir f = true /\ name = prefix ++ rest) /\
    (fst r = Exit 1 \/ exists name, fst r = Returned name) /\
    (os_readdir w source = None -> fst r = Exit 1) /\
    world (snd r) = w /\
    started (trace (snd r)) = [].
Proof.
  intros World dirs prefix source w rootFiles r. subst r.
  rewrite FindElectronAppFolder_from. cbn zeta. fold rootFiles.
  assert (Hnone : os_readdir w source = None -> rootFiles = []).
  { intros Hn. subst rootFiles. now rewrite Hn. }
  destruct (find (matches prefix) rootFiles) as [f |] eqn:Hfind; cbn [fst snd].
  - apply find_some in Hfind as [Hin Hm]. unfold matches in Hm.
    apply andb_prop in Hm as [Hp Hd].
    apply HasPrefix_spec in Hp as [rest Hrest].
    repeat split; try discriminate.
    + intros Hall. elim (Hall f Hin Hd rest Hrest).
    + intros name Hname. injection Hname as <-. now exists f, rest.
    + right. now exists (fi_Name f).
    + intros Hn. rewrite (Hnone Hn) in Hin. destruct Hin.
  - split; [split; [| reflexivity] |].
    + intros _ f Hin Hd rest Hrest.
      pose proof (find_none _ _ Hfind f Hin) as Hm. unfold matches in Hm.
      rewrite Hd, andb_true_r in Hm.
      assert (Hp : HasPrefix (fi_Name f) prefix = true)
        by (apply HasPrefix_spec; now exists rest).
      now rewrite Hp in Hm.
    + repeat split; try discriminate; now left.
Qed.

(** X12.  With the empty prefix [FindElectronAppFolder] takes the first
    directory among the entries, whatever its name. *)
Theorem FindElectronAppFolder_empty_prefix :
  forall (World : Type) (dirs : Dirs World) (source : string) (w : World),
    fst (run (FindElectronAppFolder "" source) w) =
    match find fi_IsDir (match os_readdir w source with
                         | Some l => l
                         | None => []
                         end) with
    | Some f => Returned (fi_Name f)
    | None => Exit 1
    end.
Proof.
  intros World dirs source w. rewrite FindElectronAppFolder_from. cbn zeta.
  assert (Hm : forall l, find (matches "") l = find fi_IsDir l).
  { induction l as [|f l IH]; cbn [find]; [reflexivity |].
    unfold matches at 1, HasPrefix. rewrite IH. now destruct (fi_Name f). }
  rewrite Hm.
  now destruct (find fi_IsDir _).
Qed.

(* ===================================================================== *)
(** ** More on [PathJoin], and [AppPathJoin] *)
(* ===================================================================== *)

Lemma PathJoin_Join (elem : list string) :
  PathJoin elem = Join (skip_empty elem) "\".
Proof. unfold PathJoin. now apply PathJoin_loop_skip. Qed.

Lemma concat_cons (x : string) (l : list string) :
  String.concat "" (x :: l) = x ++ String.concat "" l.
Proof. destruct l; cbn [String.concat]; [now rewrite append_empty_r | reflexivity]. Qed.

Lemma concat_app (a b : list string) :
  String.concat "" (a ++ b) = String.concat "" a ++ String.concat "" b.
Proof.
  induction a as [|x a IH]; [reflexivity |].
  cbn [app]. now rewrite !concat_cons, IH, append_assoc.
Qed.

Lemma skip_empty_head (elem : list string) :
  match skip_empty elem with
  | [] => Forall (fun e => e = "") elem
  | e :: _ => e <> "" /\ Exists (fun e => e <> "") elem
  end.
Proof.
  induction elem as [|e elem IH]; cbn [skip_empty]; [constructor |].
  destruct (String.eqb_spec e "") as [-> | Hne].
  - destruct (skip_empty elem) as [|x rest].
    + now constructor.
    + destruct IH as [Hx Hex]. split; [exact Hx | now apply Exists_cons_tl].
  - split; [exact Hne | now apply Exists_cons_hd].
Qed.

Lemma skip_empty_app (l m : list string) :
  Exists (fun e => e <> "") l -> skip_empty (l ++ m) = (skip_empty l ++ m)%list.
Proof.
  induction l as [|e l IH]; intros Hex; [inversion Hex |].
  cbn [app skip_empty]. destruct (String.eqb_spec e "") as [-> | Hne].
  - apply IH. inversion Hex as [x l' Hx | x l' Hl]; subst; [now elim Hx | exact Hl].
  - reflexivity.
Qed.

Lemma PathJoin_is_empty (elem : list string) :
  PathJoin elem = "" <-> Forall (fun e => e = "") elem.
Proof.
  rewrite PathJoin_Join.
  pose proof (skip_empty_head elem) as H.
  destruct (skip_empty elem) as [|e rest] eqn:Hs.
  - split; [intros _; exact H | reflexivity].
  - destruct H as [He Hex]. rewrite Join_cons. split.
    + intros Heq. destruct e; [now elim He | discriminate].
    + intros Hall. apply Exists_exists in Hex as (x & Hin & Hx).
      rewrite Forall_forall in Hall. now elim Hx; apply Hall.
Qed.

Lemma PathJoin_more (l m : list string) :
  Exists (fun e => e <> "") l ->
  PathJoin (l ++ m) = PathJoin l ++ String.concat "" (map (fun s => "\" ++ s) m) /\
  PathJoin (PathJoin l :: m) = PathJoin (l ++ m).
Proof.
  intros Hex.
  assert (Happ : PathJoin (l ++ m) =
                 PathJoin l ++ String.concat "" (map (fun s => "\" ++ s) m)).
  { rewrite !PathJoin_Join, (skip_empty_app l m Hex).
    pose proof (skip_empty_head l) as H.
    destruct (skip_empty l) as [|e rest].
    - apply Exists_exists in Hex as (x & Hin & Hx).
      rewrite Forall_forall in H. now elim Hx; apply H.
    - cbn [app]. now rewrite !Join_cons, map_app, concat_app, append_assoc. }
  split; [exact Happ |].
  rewrite Happ, PathJoin_Join. cbn [skip_empty].
  destruct (String.eqb_spec (PathJoin l) "") as [Hempty | _].
  - apply PathJoin_is_empty in Hempty.
    apply Exists_exists in Hex as (x & Hin & Hx).
    rewrite Forall_forall in Hempty. now elim Hx; apply Hempty.
  - apply Join_cons.
Qed.

(** X13.  [PathJoin] gives the empty string only for arguments that are all
    empty: one non-empty element is enough for a non-empty path. *)
Theorem PathJoin_empty_iff :
  forall (elem : list string),
    PathJoin elem = "" <-> Forall (fun e => e = "") elem.
Proof. intros elem. apply PathJoin_is_empty. Qed.

(** X14.  Joining more elements after a list that has a non-empty element
    adds a backslash and the element for each of them: [PathJoin] of the
    longer list is [PathJoin] of the shorter one followed by these, so that
    joining in two steps gives the same path as joining at once. *)
Theorem PathJoin_app :
  forall (l m : list string),
    Exists (fun e => e <> "") l ->
    PathJoin (l ++ m) = PathJoin l ++ String.concat "" (map (fun s => "\" ++ s) m) /\
    PathJoin (PathJoin l :: m) = PathJoin (l ++ m).
Proof. intros l m Hex. now apply PathJoin_more. Qed.

Lemma PathJoin_app_witness :
  PathJoin (["C:\apps"; "slack"] ++ ["data"; "logs"]) =
    PathJoin ["C:\apps"; "slack"] ++
    String.concat "" (map (fun s => "\" ++ s) ["data"; "logs"]) /\
  PathJoin (PathJoin ["C:\apps"; "slack"] :: ["data"; "logs"]) =
    PathJoin (["C:\apps"; "slack"] ++ ["data"; "logs"]).
Proof.
  apply (PathJoin_app ["C:\apps"; "slack"] ["data"; "logs"]).
  apply Exists_cons_hd. discriminate.
Defined.

(** X15.  When [Papp.Path] is not empty, [AppPathJoin] gives that path
    followed by a backslash and the element for each of its arguments, and
    a path it gives can be joined further with [PathJoin].  When
    [Papp.Path] is empty, as it is before [Init] has run, the path is just
    [PathJoin] of the arguments: a relative path. *)
Theorem AppPathJoin_path :
  forall (Papp : App.papp) (elem : list string),
    (App.Path Papp <> "" ->
     AppPathJoin Papp elem =
       App.Path Papp ++ String.concat "" (map (fun s => "\" ++ s) elem) /\
     forall more, PathJoin (AppPathJoin Papp elem :: more) =
                  AppPathJoin Papp (elem ++ more)) /\
    (App.Path Papp = "" -> AppPathJoin Papp elem = PathJoin elem).
Proof.
  intros Papp elem. unfold AppPathJoin. split.
  - intros Hne.
    assert (Hex : Exists (fun e => e <> "") ([App.Path Papp] ++ elem)).
    { now apply Exists_cons_hd. }
    split.
    + rewrite PathJoin_Join. cbn [app skip_empty].
      apply String.eqb_neq in Hne. rewrite Hne. apply Join_cons.
    + intros more. rewrite app_assoc.
      now apply (PathJoin_more ([App.Path Papp] ++ elem) more).
  - intros ->. now rewrite !PathJoin_Join.
Qed.

Lemma AppPathJoin_path_witness :
  AppPathJoin SimApp.slack ["data"; "logs"] = "C:\apps\slack\data\logs" /\
  PathJoin (AppPathJoin SimApp.slack ["data"] :: ["slack.log"]) =
    AppPathJoin SimApp.slack ["data"; "slack.log"] /\
  AppPathJoin (App.mkPapp "" "" "" "" "" "" [] "") ["data"] = "data".
Proof.
  pose proof (AppPathJoin_path SimApp.slack ["data"; "logs"]) as [H1 _].
  pose proof (AppPathJoin_path SimApp.slack ["data"]) as [H2 _].
  pose proof (AppPathJoin_path (App.mkPapp "" "" "" "" "" "" [] "") ["data"])
    as [_ H3].
  split; [| split].
  - apply H1. discriminate.
  - apply H2. discriminate.
  - apply H3. reflexivity.
Defined.

(* ===================================================================== *)
(** ** The order of the stamps *)
(* ===================================================================== *)

Lemma compare_refl (s : string) : String.compare s s = Eq.
Proof.
  induction s as [|c s IH]; cbn; [reflexivity |].
  unfold Ascii.compare. now rewrite N.compare_refl.
Qed.

Lemma compare_app (a a' b b' : string) :
  String.length a = String.length a' ->
  String.compare (a ++ b) (a' ++ b') =
  lexico (String.compare a a') (String.compare b b').
Proof.
  revert a'. induction a as [|c a IH]; intros [|c' a'] Hl; cbn in Hl;
    try discriminate; cbn [append String.compare lexico].
  - reflexivity.
  - injection Hl as Hl. rewrite (IH a' Hl).
    now destruct (Ascii.compare c c').
Qed.

Lemma two_digits_all_ordered :
  forallb (fun x =>
             forallb (fun y => two_digits_ordered (Z.of_nat x) (Z.of_nat y))
                     (seq 0 (Z.to_nat 100)))
          (seq 0 (Z.to_nat 100)) = true.
Proof. vm_compute. reflexivity. Qed.

Lemma four_digits_all_split :
  forallb (fun x => four_digits_split (Z.of_nat x)) (seq 0 (Z.to_nat 10000)) = true.
Proof. vm_compute. reflexivity. Qed.

Lemma compare_two_digits (x y : Z) :
  (0 <= x <= 99)%Z -> (0 <= y <= 99)%Z ->
  String.compare (appendInt x 2) (appendInt y 2) = (x ?= y)%Z.
Proof.
  intros Hx Hy. pose proof two_digits_all_ordered as Hall.
  rewrite forallb_forall in Hall.
  assert (Hix : In (Z.to_nat x) (seq 0 (Z.to_nat 100))) by (apply in_seq; lia).
  assert (Hiy : In (Z.to_nat y) (seq 0 (Z.to_nat 100))) by (apply in_seq; lia).
  specialize (Hall _ Hix). rewrite forallb_forall in Hall.
  specialize (Hall _ Hiy). rewrite !Z2Nat.id in Hall by lia.
  unfold two_digits_ordered in Hall.
  destruct (String.compare _ _), (x ?= y)%Z; (reflexivity || discriminate).
Qed.

Lemma compare_four_digits (x y : Z) :
  (0 <= x <= 9999)%Z -> (0 <= y <= 9999)%Z ->
  String.compare (appendInt x 4) (appendInt y 4) = (x ?= y)%Z.
Proof.
  intros Hx Hy. pose proof four_digits_all_split as Hall.
  rewrite forallb_forall in Hall.
  assert (Hsplit : forall z, (0 <= z <= 9999)%Z ->
            appendInt z 4 = appendInt (z / 100) 2 ++ appendInt (z mod 100) 2).
  { intros z Hz.
    assert (Hiz : In (Z.to_nat z) (seq 0 (Z.to_nat 10000))) by (apply in_seq; lia).
    specialize (Hall _ Hiz). rewrite Z2Nat.id in Hall by lia.
    now apply String.eqb_eq. }
  rewrite (Hsplit x Hx), (Hsplit y Hy).
  assert (Hqx : (0 <= x / 100 <= 99)%Z) by (Z.div_mod_to_equations; lia).
  assert (Hqy : (0 <= y / 100 <= 99)%Z) by (Z.div_mod_to_equations; lia).
  assert (Hrx : (0 <= x mod 100 <= 99)%Z) by (Z.div_mod_to_equations; lia).
  assert (Hry : (0 <= y mod 100 <= 99)%Z) by (Z.div_mod_to_equations; lia).
  rewrite compare_app
    by now rewrite (proj1 (appendInt_2 _ Hqx)), (proj1 (appendInt_2 _ Hqy)).
  rewrite !compare_two_digits by assumption.
  unfold lexico.
  destruct (Z.compare_spec (x / 100) (y / 100)) as [Hq | Hq | Hq];
    destruct (Z.compare_spec (x mod 100) (y mod 100)) as [Hr | Hr | Hr];
    symmetry;
    first [ apply Z.compare_eq_iff | apply Z.compare_lt_iff | apply Z.compare_gt_iff ];
    Z.div_mod_to_equations; lia.
Qed.

Lemma compare_Format (a b : Time) :
  civil a -> civil b ->
  String.compare (Format_20060102150405 a) (Format_20060102150405 b) =
  compare_seconds a b.
Proof.
  intros Ha Hb.
  destruct (Format_shape a Ha) as ((Ya & _) & (Ma & _) & (Da & _) & (Ha' & _) & (Ia & _) & _).
  destruct (Format_shape b Hb) as ((Yb & _) & (Mb & _) & (Db & _) & (Hb' & _) & (Ib & _) & _).
  unfold Format_20060102150405, compare_seconds.
  rewrite compare_app by now rewrite Ya, Yb.
  rewrite compare_app by now rewrite Ma, Mb.
  rewrite compare_app by now rewrite Da, Db.
  rewrite compare_app by now rewrite Ha', Hb'.
  rewrite compare_app by now rewrite Ia, Ib.
  unfold civil in Ha, Hb.
  rewrite compare_four_digits by lia.
  rewrite !compare_two_digits by lia.
  reflexivity.
Qed.

(** X16.  The stamp sorts as the clock runs: for civil readings of the
    clock, the byte order of two stamps, and of the names of two backups of
    the same file, is the order of the readings taken from the year down to
    the second. *)
Theorem backup_names_sort_by_time :
  forall (reg : RegExportImport) (a b : Time),
    civil a -> civil b ->
    String.compare (Format_20060102150405 a) (Format_20060102150405 b) =
      compare_seconds a b /\
    String.compare (File (backup_of reg a)) (File (backup_of reg b)) =
      compare_seconds a b.
Proof.
  intros reg a b Ha Hb. split; [now apply compare_Format |].
  cbn [File backup_of]. unfold Sprintf_s_dot_s.
  rewrite compare_app by reflexivity. rewrite compare_refl. cbn [lexico].
  rewrite (compare_app "." "." _ _ eq_refl). cbn [String.compare lexico].
  now apply compare_Format.
Qed.

Lemma backup_names_sort_by_time_witness :
  String.compare (File (backup_of Sim.foo Sim.t0)) (File (backup_of Sim.foo Sim.t3)) = Lt.
Proof.
  apply (backup_names_sort_by_time Sim.foo Sim.t0 Sim.t3).
  - unfold civil. cbn. lia.
  - unfold civil. cbn. lia.
Defined.

(* ===================================================================== *)
(** ** Trimmed output *)
(* ===================================================================== *)

Lemma trim_left_first (s : string) : is_space (first_byte (trim_left s)) = false.
Proof.
  induction s as [|a t IH]; cbn [trim_left]; [reflexivity |].
  destruct (asciiSpace (N_of_ascii a)) eqn:Ha; [exact IH | exact Ha].
Qed.

Lemma trim_left_fixed (s : string) :
  is_space (first_byte s) = false -> trim_left s = s.
Proof. destruct s as [|a t]; cbn; [reflexivity | now intros ->]. Qed.

Lemma trim_right_empty (s : string) : trim_right s = "" -> all_space s = true.
Proof.
  induction s as [|a t IH]; cbn [trim_right all_space]; [reflexivity |].
  destruct (trim_right t) eqn:Ht; [| discriminate].
  destruct (asciiSpace (N_of_ascii a)); [intros _; now apply IH | discriminate].
Qed.

Lemma trim_right_last (s : string) : is_space (last_byte (trim_right s)) = false.
Proof.
  induction s as [|a t IH]; cbn [trim_right]; [reflexivity |].
  destruct (trim_right t) as [|b r] eqn:Ht.
  - destruct (asciiSpace (N_of_ascii a)) eqn:Ha; [reflexivity | exact Ha].
  - exact IH.
Qed.

Lemma trim_right_first (s : string) :
  is_space (first_byte s) = false -> is_space (first_byte (trim_right s)) = false.
Proof.
  destruct s as [|a t]; cbn [trim_right first_byte is_space]; [reflexivity |].
  intros Ha. destruct (trim_right t); [now rewrite Ha | exact Ha].
Qed.

Lemma trim_right_fixed (s : string) : trim_right (trim_right s) = trim_right s.
Proof.
  induction s as [|a t IH]; cbn [trim_right]; [reflexivity |].
  destruct (trim_right t) as [|b r] eqn:Ht.
  - destruct (asciiSpace (N_of_ascii a)) eqn:Ha; cbn [trim_right];
      [reflexivity | now rewrite Ha].
  - cbn [trim_right] in *. now rewrite IH.
Qed.

Lemma all_space_trim_left (s : string) : all_space s = true -> trim_left s = "".
Proof.
  induction s as [|a t IH]; cbn [all_space trim_left]; [reflexivity |].
  intros H. apply andb_prop in H as [-> Ht]. now apply IH.
Qed.


Lemma all_ascii_trim_left (s : string) :
  all_ascii s = true -> all_ascii (trim_left s) = true.
Proof.
  induction s as [|a t IH]; cbn [trim_left]; [reflexivity |].
  intros H. destruct (asciiSpace (N_of_ascii a)); [| exact H].
  cbn [all_ascii] in H. apply andb_prop in H as [_ Ht]. now apply IH.
Qed.

Lemma all_ascii_trim_right (s : string) :
  all_ascii s = true -> all_ascii (trim_right s) = true.
Proof.
  induction s as [|a t IH]; cbn [trim_right all_ascii]; [reflexivity |].
  intros H. apply andb_prop in H as [Ha Ht]. specialize (IH Ht).
  destruct (trim_right t) as [|b r].
  - destruct (asciiSpace (N_of_ascii a)); cbn [all_ascii]; [reflexivity |].
    now rewrite Ha.
  - cbn [all_ascii] in *. now rewrite Ha, IH.
Qed.

(** What [TrimSpace] gives on ASCII text: no white space is left at either
    end, text of white space only becomes empty, and trimming once more
    changes nothing. *)
Lemma TrimSpace_ascii_ends (s : string) :
  all_ascii s = true ->
  no_space_at_ends (TrimSpace s) /\
  (all_space s = true -> TrimSpace s = "") /\
  TrimSpace (TrimSpace s) = TrimSpace s.
Proof.
  intros Hs. rewrite (TrimSpace_ascii s Hs).
  assert (Ht : all_ascii (trim_ascii s) = true)
    by now apply all_ascii_trim_right, all_ascii_trim_left.
  rewrite (TrimSpace_ascii _ Ht). unfold trim_ascii, no_space_at_ends.
  repeat split.
  - apply trim_right_first, trim_left_first.
  - apply trim_right_last.
  - intros Hall. now rewrite (all_space_trim_left s Hall).
  - rewrite (trim_left_fixed (trim_right (trim_left s)))
      by apply trim_right_first, trim_left_first.
    apply trim_right_fixed.
Qed.

(** X17.  When the command wrote ASCII text, the [Stdout] and [Stderr] of
    the result of [ExecCmd] neither begin nor end with white space (space,
    tab, line feed, vertical tab, form feed, carriage return), they are
    empty when the command wrote white space only, and [TrimSpace] leaves
    them as they are. *)
Theorem ExecCmd_output_has_no_space_at_ends :
  forall (World : Type) (os : OS World) (options : CmdOptions)
         (s : State World) (code : N) (out err : string) (w' : World),
    os_spawn (world s) (command_of options) = (Exited code out err, w') ->
    all_ascii out = true ->
    all_ascii err = true ->
    exists (result : CmdResult) (s' : State World),
      ExecCmd options s = (Returned (result, None), s') /\
      no_space_at_ends (Stdout result) /\
      no_space_at_ends (Stderr result) /\
      (all_space out = true -> Stdout result = "") /\
      (all_space err = true -> Stderr result = "") /\
      TrimSpace (Stdout result) = Stdout result /\
      TrimSpace (Stderr result) = Stderr result.
Proof.
  intros World os options s code out err w' Hspawn Hout Herr.
  rewrite ExecCmd_run. cbn zeta. rewrite Hspawn.
  destruct (TrimSpace_ascii_ends out Hout) as (Ho1 & Ho2 & Ho3).
  destruct (TrimSpace_ascii_ends err Herr) as (He1 & He2 & He3).
  eexists. eexists. split; [reflexivity |]. cbn [Stdout Stderr].
  exact (conj Ho1 (conj He1 (conj Ho2 (conj He2 (conj Ho3 He3))))).
Qed.

Lemma ExecCmd_output_has_no_space_at_ends_witness :
  exists (result : CmdResult) (s' : State Sim.SimWorld),
    ExecCmd SimRuns.ping (mkState SimRuns.w_reply []) = (Returned (result, None), s') /\
    no_space_at_ends (Stdout result) /\
    no_space_at_ends (Stderr result) /\
    (all_space SimRuns.reply = true -> Stdout result = "") /\
    (all_space "" = true -> Stderr result = "") /\
    TrimSpace (Stdout result) = Stdout result /\
    TrimSpace (Stderr result) = Stderr result.
Proof.
  apply (ExecCmd_output_has_no_space_at_ends Sim.SimWorld Sim.SimOS SimRuns.ping
           (mkState SimRuns.w_reply []) 0 SimRuns.reply "" SimRuns.w_reply1).
  - reflexivity.
  - reflexivity.
  - reflexivity.
Defined.



(* ===================================================================== *)
(** ** [ImportRegKey] runs [ExportRegKey] *)
(* ===================================================================== *)

(** X19.  A run of [ImportRegKey] begins with the whole run of
    [ExportRegKey] on the backup file, its log entries included; when that
    run ends the program, nothing is added to it, and when the file to
    import is missing only the check of the file is. *)
Theorem ImportRegKey_begins_with_ExportRegKey :
  forall (World : Type) (os : OS World) (reg : RegExportImport) (w : World),
    let export := run (ExportRegKey (backup_of reg (os_now w))) w in
    let import := run (ImportRegKey reg) w in
    (exists rest, trace (snd import) = (trace (snd export) ++ rest)%list) /\
    (forall n, fst export = Exit n -> import = export) /\
    (forall e, fst export = Returned tt ->
               os_stat (world (snd export)) (File reg) = Some e ->
               import =
                 (Returned tt,
                  mkState (world (snd export))
                          (trace (snd export) ++ [EvStat (File reg) (Some e)]))).
Proof.
  intros World os reg w export import. subst export import.
  rewrite ImportRegKey_from, ExportRegKey_from. cbn zeta.
  cbn [Key File Arch backup_of].
  destruct (os_spawn w _) as [[e | code1 out1 err1] w1]; cbn [fst snd trace world].
  - split; [exists []; now rewrite app_nil_r |].
    split; [reflexivity | discriminate].
  - split; [| split; [discriminate |]].
    + destruct (os_stat w1 (File reg)) as [e |]; cbn [snd trace].
      * eexists. rewrite app_assoc. reflexivity.
      * destruct (os_spawn w1 _) as [[e | code2 out2 err2] w2]; cbn [snd trace];
          eexists; rewrite (app_assoc [_; _]), <- app_assoc; reflexivity.
    + intros e _ Hstat. rewrite Hstat. now rewrite <- app_assoc.
Qed.

Lemma ImportRegKey_begins_with_ExportRegKey_witness :
  run (ImportRegKey Sim.foo) SimRuns.w_noreg =
  run (ExportRegKey (backup_of Sim.foo (os_now SimRuns.w_noreg))) SimRuns.w_noreg.
Proof.
  apply (proj1 (proj2 (ImportRegKey_begins_with_ExportRegKey
                         Sim.SimWorld Sim.SimOS Sim.foo SimRuns.w_noreg)) 1%nat).
  reflexivity.
Defined.
